(** * A shallow embedding of the Mini RAG backend

    The development follows the Python sources under [backend/app]:
    - [services/chunking.py]  (module [Chunking]),
    - [services/llm.py]       (module [LLM]),
    - [services/embedding.py], [services/vector_store.py] (module [Stores]),
    - [services/retrieval.py] (module [Retrieval]),
    - [routes.py]             (module [Routes]).

    Definitions come first; the properties start at module [PyFacts].

    Python values are modelled as follows.  A [str] is a list of characters;
    characters are the code points U+0000..U+00FF, carried by [ascii].  An
    [int] is a [Z].  A [float] is kept abstract behind the interface
    [PyFloat].  Lists are Rocq lists, with Python's indexing and slicing
    written out in module [Py]. *)

From Stdlib Require Import List ZArith Ascii String Bool Lia QArith Qround Lqa.
From Stdlib Require Import Permutation Sorted.
From Stdlib Require Import Numbers.DecimalString.
Import ListNotations.

Open Scope Z_scope.

(** ** Python primitives *)

Module Py.

Definition str := list ascii.

Definition lit (s : string) : str := list_ascii_of_string s.

Definition len {A : Type} (l : list A) : Z := Z.of_nat (List.length l).

(** [str.isspace] on one character of the Latin-1 range: TAB..CR,
    FS..US, SPACE, NEL and NBSP. *)
Definition isspace (c : ascii) : bool :=
  let n := Z.of_N (N_of_ascii c) in
  ((9 <=? n) && (n <=? 13)) || ((28 <=? n) && (n <=? 32))
  || (n =? 133) || (n =? 160).

(** Decimal digits of the Latin-1 range, as matched by [\d] and read by
    [int]. *)
Definition isdigit (c : ascii) : bool :=
  let n := Z.of_N (N_of_ascii c) in (48 <=? n) && (n <=? 57).

Definition digit_value (c : ascii) : Z := Z.of_N (N_of_ascii c) - 48.

Definition space : ascii := " "%char.

(** [s.split()] with no argument: the maximal runs of non-whitespace
    characters, in order.  A non-space character either opens a word
    (when the next character is a space or the text ends) or is put in
    front of the word that starts right after it. *)
Fixpoint split (s : str) : list str :=
  match s with
  | [] => []
  | c :: t =>
      if isspace c then split t
      else match t with
           | [] => [[c]]
           | c' :: _ =>
               if isspace c' then [c] :: split t
               else match split t with
                    | w :: ws => (c :: w) :: ws
                    | [] => [[c]]
                    end
           end
  end.

(** [sep.join(ws)] *)
Fixpoint join (sep : str) (ws : list str) : str :=
  match ws with
  | [] => []
  | w :: ws' =>
      match ws' with
      | [] => w
      | _ :: _ => w ++ sep ++ join sep ws'
      end
  end.

Fixpoint lstrip (s : str) : str :=
  match s with
  | [] => []
  | c :: t => if isspace c then lstrip t else s
  end.

Definition rstrip (s : str) : str := rev (lstrip (rev s)).

(** [s.strip()] *)
Definition strip (s : str) : str := rstrip (lstrip s).

(** A slice bound [i] of a sequence of length [n]: negative bounds count
    from the end, and every bound is clamped to [0..n]. *)
Definition clamp (n i : Z) : Z :=
  if i <? 0 then Z.max 0 (n + i) else Z.min i n.

(** [l[a:b]] *)
Definition slice {A : Type} (l : list A) (a b : Z) : list A :=
  let a' := clamp (len l) a in
  let b' := clamp (len l) b in
  firstn (Z.to_nat (b' - a')) (skipn (Z.to_nat a') l).

(** [l[:b]] *)
Definition slice_to {A : Type} (l : list A) (b : Z) : list A :=
  slice l 0 b.

(** [l[i]]; [None] stands for [IndexError]. *)
Definition getitem {A : Type} (l : list A) (i : Z) : option A :=
  let j := if i <? 0 then len l + i else i in
  if (j <? 0) || (len l <=? j) then None
  else nth_error l (Z.to_nat j).

(** [str(n)] for an [int]. *)
Definition str_of_int (n : Z) : str :=
  lit (NilZero.string_of_int (Z.to_int n)).

(** [int(s)] on a non-empty string of decimal digits. *)
Definition int_of_digits (s : str) : Z :=
  fold_left (fun acc c => 10 * acc + digit_value c) s 0.

(** [a == b] on two strings. *)
Fixpoint str_eqb (a b : str) : bool :=
  match a, b with
  | [], [] => true
  | c :: a', d :: b' => Ascii.eqb c d && str_eqb a' b'
  | _, _ => false
  end.

(** The truth value of a sequence: [if l:] *)
Definition truthy {A : Type} (l : list A) : bool :=
  match l with [] => false | _ :: _ => true end.

End Py.

(** ** services/chunking.py *)

Module Chunking.
Import Py.

(** Values stored in the metadata dictionary ([Dict[str, Any]]). *)
Inductive value : Type :=
| VStr (s : str)
| VInt (n : Z).

(** A dictionary literal keeps its keys in the order written. *)
Definition dict := list (str * value).

Fixpoint dict_get (d : dict) (k : str) : option value :=
  match d with
  | [] => None
  | (k', v) :: d' =>
      if str_eqb k k' then Some v else dict_get d' k
  end.

Record TextChunk : Type := mkTextChunk {
  id : str;
  content : str;
  metadata : dict
}.

(** [ChunkingService.__init__] *)
Definition chunk_size : Z := 1000.
Definition chunk_overlap : Z := 150.

(** How a call may end: with a value, with an exception, or not within
    the iterations allowed. *)
Inductive outcome (A : Type) : Type :=
| Returned (a : A)
| Raised
| OutOfFuel.
Arguments Returned {A} a.
Arguments Raised {A}.
Arguments OutOfFuel {A}.

(** The inner loop
    [while end > start and cleaned_text[end] != ' ': end -= 1]
    entered with [end = start + dist].  [None] is the [IndexError] of
    [cleaned_text[end]]. *)
Fixpoint walk_back (cleaned : str) (start : Z) (dist : nat) : option Z :=
  match dist with
  | O => Some start
  | S d =>
      let end_ := start + Z.of_nat dist in
      match getitem cleaned end_ with
      | None => None
      | Some c =>
          if Ascii.eqb c space then Some end_
          else walk_back cleaned start d
      end
  end.

(** The value of [end] when the slice is taken. *)
Definition window_end (cleaned : str) (start : Z) : option Z :=
  let end_ := start + chunk_size in
  if end_ <? len cleaned then
    match walk_back cleaned start (Z.to_nat (end_ - start)) with
    | None => None
    | Some e => Some (if e =? start then start + chunk_size else e)
    end
  else Some end_.

(** [start = end - overlap; if start < 0: start = end] *)
Definition next_start (end_ : Z) : Z :=
  let start := end_ - chunk_overlap in
  if start <? 0 then end_ else start.

(** The variables of the outer loop, with the number of [uuid.uuid4()]
    calls made so far. *)
Record loop_state : Type := mkState {
  st_start : Z;
  st_chunk_num : Z;
  st_chunks : list TextChunk;
  st_uuid_calls : nat
}.

Definition init_state : loop_state := mkState 0 0 [] 0.

Section WithInputs.
(** [uuid4_hex n] is the [hex] of the [n]-th [uuid.uuid4()]. *)
Variable uuid4_hex : nat -> str.
Variables (cleaned source title section : str).

Definition make_chunk (st : loop_state) (chunk_text : str) : TextChunk :=
  let chunk_id :=
    source ++ lit "_" ++ str_of_int (st_chunk_num st) ++ lit "_"
    ++ slice (uuid4_hex (st_uuid_calls st)) 0 8 in
  let metadata :=
    [ (lit "source", VStr source);
      (lit "title", VStr title);
      (lit "section", VStr section);
      (lit "position", VInt (st_chunk_num st)) ] in
  mkTextChunk chunk_id chunk_text metadata.

(** One pass through the body of [while start < len(cleaned_text)]. *)
Definition loop_body (st : loop_state) : option loop_state :=
  match window_end cleaned (st_start st) with
  | None => None
  | Some end_ =>
      let chunk_text := strip (slice cleaned (st_start st) end_) in
      let start' := next_start end_ in
      if truthy chunk_text then
        Some (mkState start' (st_chunk_num st + 1)
                (st_chunks st ++ [make_chunk st chunk_text])
                (S (st_uuid_calls st)))
      else
        Some (mkState start' (st_chunk_num st) (st_chunks st)
                (st_uuid_calls st))
  end.

Fixpoint chunk_loop (fuel : nat) (st : loop_state)
  : outcome (list TextChunk) :=
  if st_start st <? len cleaned then
    match fuel with
    | O => OutOfFuel
    | S fuel' =>
        match loop_body st with
        | None => Raised
        | Some st' => chunk_loop fuel' st'
        end
    end
  else Returned (st_chunks st).

(** The states in which the loop test is evaluated: [reachable_in n st]
    when [st] holds the variables after [n] passes through the body. *)
Inductive reachable_in : nat -> loop_state -> Prop :=
| reach_init : reachable_in 0 init_state
| reach_pass n st st' :
    reachable_in n st ->
    st_start st < len cleaned ->
    loop_body st = Some st' ->
    reachable_in (S n) st'.

End WithInputs.

(** [" ".join(text.split())] *)
Definition clean_text (text : str) : str := join [space] (split text).

(** [ChunkingService.chunk_text], run for at most [fuel] iterations of
    its outer loop. *)
Definition chunk_text (fuel : nat) (uuid4_hex : nat -> str)
    (text source title section : str) : outcome (list TextChunk) :=
  chunk_loop uuid4_hex (clean_text text) source title section
    fuel init_state.

(** Sample inputs. *)
Definition fixed_uuid (n : nat) : str := lit "0123456789abcdef0123456789abcdef".

Definition stuck_text : str :=
  repeat "a"%char 850 ++ [space] ++ repeat "b"%char 2000.

Definition text_900 : str := repeat "a"%char 900.

End Chunking.

(** ** Python floats, kept abstract *)

(** The operations on [float] that the services use.  [flit q] is the
    float written as the decimal literal [q]; [int_truediv a b] is [a / b]
    on two [int]s; [fround x n] is [round(x, n)]; [fle] is [<=]. *)
Class PyFloat : Type := {
  float : Type;
  flit : Q -> float;
  fadd : float -> float -> float;
  fsub : float -> float -> float;
  fmul : float -> float -> float;
  int_truediv : Z -> Z -> float;
  fround : float -> Z -> float;
  fle : float -> float -> Prop
}.

Definition fzero `{PyFloat} : float := flit 0.

(** Multiplying by the constant [c] keeps non-negative values ordered. *)
Definition scales_monotonically `{PyFloat} (c : float) : Prop :=
  forall x y, fle fzero x -> fle x y ->
    fle fzero (fmul x c) /\ fle (fmul x c) (fmul y c).

(** Order facts about correctly rounded arithmetic on non-negative
    values, for the two rates that [LLMService._estimate_cost] uses. *)
Class PyFloatOrder `{PyFloat} : Prop := {
  fle_refl_nonneg : forall x, fle fzero x -> fle x x;
  int_truediv_monotone : forall a b d, 0 <= a <= b -> 0 < d ->
    fle fzero (int_truediv a d) /\ fle (int_truediv a d) (int_truediv b d);
  scale_input_rate : scales_monotonically (flit (75 # 1000000));
  scale_output_rate : scales_monotonically (flit (3 # 10000));
  fadd_monotone : forall a x y, fle fzero a -> fle fzero x -> fle x y ->
    fle (fadd a x) (fadd a y);
  fround_monotone : forall x y, fle x y -> fle (fround x 6) (fround y 6)
}.

(** ** models/schemas.py *)

Module Schemas.
Import Py.

Section WithFloat.
Context `{PyFloat}.

Record SourceDocument : Type := mkSourceDocument {
  doc_id : str;
  doc_content : str;
  doc_source : str;
  doc_title : str;
  doc_score : float;
  doc_rerank_score : option float
}.

Record Citation : Type := mkCitation {
  cit_index : Z;
  cit_source : str;
  cit_title : str;
  cit_content_snippet : str
}.

Record TokenUsage : Type := mkTokenUsage {
  prompt_tokens : Z;
  completion_tokens : Z;
  total_tokens : Z
}.

Record RetrievalResult : Type := mkRetrievalResult {
  rr_documents : list SourceDocument;
  rr_retrieval_time : float;
  rr_rerank_time : float
}.

Record LLMResponse : Type := mkLLMResponse {
  llm_answer : str;
  llm_citations : list Citation;
  llm_generation_time : float;
  llm_token_usage : option TokenUsage;
  llm_estimated_cost : option float
}.

Record QueryRequest : Type := mkQueryRequest {
  req_query : str;
  req_top_k : Z;
  req_rerank_top_k : Z
}.

Record QueryResponse : Type := mkQueryResponse {
  qr_answer : str;
  qr_citations : list Citation;
  qr_sources : list SourceDocument;
  qr_retrieval_time : float;
  qr_rerank_time : float;
  qr_llm_time : float;
  qr_total_time : float;
  qr_token_usage : option TokenUsage;
  qr_estimated_cost : option float
}.
End WithFloat.

End Schemas.

(** ** Effects: exceptions, the clock, and calls to the outside *)

Module Eff.
Import Py.

Inductive exn : Type :=
| ValueError (msg : str)
| IndexError
| ServiceError (code : nat)
| HTTPException (status : Z) (detail : exn).

(** What a run leaves behind: calls to the external services, entries
    into [generate_answer], and lines written with [logger.error]. *)
Inductive event : Type :=
| EvEmbed (content task_type : str)
| EvIndexQuery (top_k : Z)
| EvRerank (query : str) (documents : list str) (top_n : Z)
| EvGenerate (prompt : str)
| EvEnterGenerateAnswer
| EvLogError.

(** [clock] counts the readings of [time.time()] taken so far. *)
Record world : Type := mkWorld {
  clock : nat;
  trace : list event
}.

Definition M (A : Type) : Type := world -> (exn + A) * world.

Definition ret {A} (a : A) : M A := fun w => (inr a, w).

Definition bind {A B} (m : M A) (k : A -> M B) : M B :=
  fun w => match m w with
           | (inl e, w') => (inl e, w')
           | (inr a, w') => k a w'
           end.

Definition raise {A} (e : exn) : M A := fun w => (inl e, w).

(** [try: m except Exception as e: h e] *)
Definition try_except {A} (m : M A) (h : exn -> M A) : M A :=
  fun w => match m w with
           | (inl e, w') => h e w'
           | (inr a, w') => (inr a, w')
           end.

(** [m], with an exception handed over as a value. *)
Definition attempt {A} (m : M A) : M (exn + A) :=
  fun w => match m w with (r, w') => (inr r, w') end.

Definition emit (ev : event) : M unit :=
  fun w => (inr tt, mkWorld (clock w) (trace w ++ [ev])).

(** A call to an external service: recorded, then answered. *)
Definition call {A} (ev : event) (answer : exn + A) : M A :=
  fun w => (answer, mkWorld (clock w) (trace w ++ [ev])).

Definition log_error : M unit := emit EvLogError.

Definition is_rerank (ev : event) : bool :=
  match ev with EvRerank _ _ _ => true | _ => false end.

Definition is_generation (ev : event) : bool :=
  match ev with
  | EvGenerate _ | EvEnterGenerateAnswer => true
  | _ => false
  end.

End Eff.

Declare Scope eff_scope.
Delimit Scope eff_scope with eff.
Notation "x <- m ;; k" := (Eff.bind m (fun x => k))
  (at level 61, m at next level, right associativity) : eff_scope.
Notation "m ;;; k" := (Eff.bind m (fun _ => k))
  (at level 61, right associativity) : eff_scope.

(** ** The external collaborators *)

Module Services.
Import Py Eff.

Section WithFloat.
Context `{PyFloat}.

(** One match of the vector index.  The metadata was written at upsert
    with string values under the keys read back here; [None] is an
    absent key. *)
Record index_match : Type := mkMatch {
  match_id : str;
  match_score : float;
  match_content : option str;
  match_source : option str;
  match_title : option str
}.

(** One entry of [rerank_response.results]. *)
Record rerank_hit : Type := mkHit {
  hit_index : Z;
  hit_relevance_score : float
}.

(** A response of the generative model; reading [response.text] may
    raise. *)
Record model_response : Type := mkResponse {
  response_text : exn + str
}.

(** The handles held by the service objects.  [now n] is the [n]-th
    reading of [time.time()]; [index], [cohere_client] and [model]
    are [None] when not initialised or not configured. *)
Record services : Type := mkServices {
  now : nat -> float;
  embed_content : str -> str -> exn + list float;
  index : option (list float -> Z -> exn + list index_match);
  cohere_client : option (str -> list str -> Z -> exn + list rerank_hit);
  model : option (str -> exn + model_response)
}.

Definition time_time (sv : services) : M float :=
  fun w => (inr (now sv (clock w)), mkWorld (S (clock w)) (trace w)).

End WithFloat.
End Services.

(** ** services/llm.py *)

Module LLM.
Import Py Eff Schemas Services.
Local Open Scope eff_scope.

(** [re.findall(r'\[(\d+)\]', s)]: the digits taken by [\d+], and what
    follows them. *)
Fixpoint span_digits (s : str) : str * str :=
  match s with
  | [] => ([], [])
  | c :: t =>
      if isdigit c then let (ds, r) := span_digits t in (c :: ds, r)
      else ([], s)
  end.

(** A match of the pattern at the head of [s]: the captured group and
    the text after the closing bracket. *)
Definition match_here (s : str) : option (str * str) :=
  match s with
  | "["%char :: t =>
      match span_digits t with
      | (d :: ds, "]"%char :: r) => Some (d :: ds, r)
      | _ => None
      end
  | _ => None
  end.

(** The scan of [findall]: after a match it resumes behind the match,
    otherwise one character further.  [fuel] bounds the number of
    positions tried. *)
Fixpoint findall_from (fuel : nat) (s : str) : list str :=
  match fuel with
  | O => []
  | S fuel' =>
      match s with
      | [] => []
      | _ :: t =>
          match match_here s with
          | Some (ds, r) => ds :: findall_from fuel' r
          | None => findall_from fuel' t
          end
      end
  end.

Definition findall (s : str) : list str := findall_from (List.length s) s.

Definition str_eq_dec : forall a b : str, {a = b} + {a <> b} :=
  list_eq_dec ascii_dec.

Section WithFloat.
Context `{PyFloat}.

(** [doc.content[:150] + ("..." if len(doc.content) > 150 else "")] *)
Definition content_snippet (doc : SourceDocument) : str :=
  slice_to (doc_content doc) 150
  ++ (if 150 <? len (doc_content doc) then lit "..." else []).

(** The body of the [for] loop of [_extract_citations] for one element
    of the set: the citation appended, if any. *)
Definition citation_of (context_documents : list SourceDocument)
    (citation_num_str : str) : option Citation :=
  let citation_num := int_of_digits citation_num_str in
  if (1 <=? citation_num) && (citation_num <=? len context_documents)
  then
    match getitem context_documents (citation_num - 1) with
    | Some doc =>
        Some (mkCitation citation_num (doc_source doc) (doc_title doc)
                (content_snippet doc))
    | None => None
    end
  else None.

Fixpoint filter_map {A B} (f : A -> option B) (l : list A) : list B :=
  match l with
  | [] => []
  | a :: l' =>
      match f a with
      | Some b => b :: filter_map f l'
      | None => filter_map f l'
      end
  end.

(** [citations.sort(key=lambda x: x.index)]: a stable sort. *)
Fixpoint insert_citation (c : Citation) (l : list Citation)
  : list Citation :=
  match l with
  | [] => [c]
  | d :: l' =>
      if cit_index c <=? cit_index d then c :: l
      else d :: insert_citation c l'
  end.

Fixpoint sort_citations (l : list Citation) : list Citation :=
  match l with
  | [] => []
  | c :: l' => insert_citation c (sort_citations l')
  end.

(** [_extract_citations], with the order in which the [for] loop
    visits [set(found_citations)] given by [set_order]. *)
Definition extract_citations_in_order
    (set_order : list str -> list str)
    (answer_text : str) (context_documents : list SourceDocument)
  : list Citation :=
  let found_citations := findall answer_text in
  sort_citations
    (filter_map (citation_of context_documents)
       (set_order found_citations)).

(** [_extract_citations] with the distinct strings visited in the
    order of [nodup].  The result does not depend on that order
    ([extract_citations_any_order] below). *)
Definition extract_citations
  : str -> list SourceDocument -> list Citation :=
  extract_citations_in_order (nodup str_eq_dec).

(** [_estimate_token_usage] *)
Definition estimate_token_usage (prompt response : str) : TokenUsage :=
  let prompt_tokens := len prompt / 4 in
  let completion_tokens := len response / 4 in
  let total_tokens := prompt_tokens + completion_tokens in
  mkTokenUsage prompt_tokens completion_tokens total_tokens.

(** [_estimate_cost] *)
Definition estimate_cost (token_usage : TokenUsage) : float :=
  let input_cost :=
    fmul (int_truediv (prompt_tokens token_usage) 1000)
         (flit (75 # 1000000)) in
  let output_cost :=
    fmul (int_truediv (completion_tokens token_usage) 1000)
         (flit (3 # 10000)) in
  fround (fadd input_cost output_cost) 6.

Definition nl : str := ["010"%char].

(** The [for] loop building [context_text]; [i] is the 1-based
    ordinal of the first document of [docs]. *)
Fixpoint build_context (i : Z) (docs : list SourceDocument) : str :=
  match docs with
  | [] => []
  | doc :: docs' =>
      (lit "[" ++ str_of_int i ++ lit "] Source: " ++ doc_source doc
       ++ nl ++ lit "Content: " ++ doc_content doc ++ nl ++ nl)
      ++ build_context (i + 1) docs'
  end.

Definition build_prompt (query context_text : str) : str :=
  lit "Answer the question using only the provided context documents. Include citations [1], [2], etc."
  ++ nl ++ nl ++ lit "CONTEXT:" ++ nl ++ context_text ++ nl ++ nl
  ++ lit "QUESTION: " ++ query ++ nl ++ nl
  ++ lit "ANSWER WITH CITATIONS:".

Definition no_context_answer : str :=
  lit "I couldn't find any relevant information to answer your question.".

Definition unreadable_answer : str :=
  lit "I apologize, but I couldn't generate a proper response.".

Definition error_answer : str :=
  lit "I apologize, but I encountered an error while generating the answer.".

Definition degraded_response : LLMResponse :=
  mkLLMResponse error_answer [] (flit 0) None None.

Variable sv : services.

(** [LLMService.generate_answer] *)
Definition generate_answer (query : str)
    (context_documents : list SourceDocument) : M LLMResponse :=
  emit EvEnterGenerateAnswer ;;;
  try_except
    (match model sv with
     | None => raise (ValueError (lit "Gemini model not initialized"))
     | Some generate_content =>
         if negb (truthy context_documents) then
           ret (mkLLMResponse no_context_answer [] (flit 0) None None)
         else
           generation_start <- time_time sv ;;
           let context_text := build_context 1 context_documents in
           let prompt := build_prompt query context_text in
           response <- call (EvGenerate prompt) (generate_content prompt) ;;
           t <- time_time sv ;;
           let generation_time := fsub t generation_start in
           let answer_text :=
             match response_text response with
             | inr text => text
             | inl _ => unreadable_answer
             end in
           let citations :=
             extract_citations answer_text context_documents in
           let token_usage := estimate_token_usage prompt answer_text in
           let estimated_cost := estimate_cost token_usage in
           ret (mkLLMResponse answer_text citations generation_time
                  (Some token_usage) (Some estimated_cost))
     end)
    (fun e => log_error ;;; ret degraded_response).

End WithFloat.
End LLM.

(** ** services/embedding.py and services/vector_store.py *)

Module Stores.
Import Py Eff Schemas Services.
Local Open Scope eff_scope.

Section WithFloat.
Context `{PyFloat}.
Variable sv : services.

(** [EmbeddingService._clean_text] *)
Definition embedding_clean_text (text : str) : str :=
  let cleaned := join [space] (split text) in
  let max_chars := 2048 * 4 in
  if max_chars <? len cleaned then slice_to cleaned max_chars
  else cleaned.

(** [EmbeddingService.generate_query_embedding] *)
Definition generate_query_embedding (text : str) : M (list float) :=
  try_except
    (let cleaned_text := embedding_clean_text text in
     let task_type := lit "retrieval_query" in
     call (EvEmbed cleaned_text task_type)
          (embed_content sv cleaned_text task_type))
    (fun e => log_error ;;; raise e).

Definition get_or_empty (field : option str) : str :=
  match field with Some s => s | None => [] end.

(** The dictionary that [query_similar] builds for one match, already
    as the [SourceDocument] that [retrieve_and_rerank] makes of it. *)
Definition to_source_document (m : index_match) : SourceDocument :=
  mkSourceDocument (match_id m) (get_or_empty (match_content m))
    (get_or_empty (match_source m)) (get_or_empty (match_title m))
    (match_score m) None.

(** [VectorStoreService.query_similar] *)
Definition query_similar (query_embedding : list float) (top_k : Z)
  : M (list index_match) :=
  try_except
    (match index sv with
     | None => raise (ValueError (lit "Vector store not initialized"))
     | Some index_query =>
         call (EvIndexQuery top_k) (index_query query_embedding top_k)
     end)
    (fun e => log_error ;;; raise e).

End WithFloat.
End Stores.

(** ** services/retrieval.py *)

Module Retrieval.
Import Py Eff Schemas Services Stores.
Local Open Scope eff_scope.

Section WithFloat.
Context `{PyFloat}.
Variable sv : services.

(** The position in the list that [documents[i]] reads. *)
Definition resolve_index {A} (l : list A) (i : Z) : option nat :=
  let j := if i <? 0 then len l + i else i in
  if (j <? 0) || (len l <=? j) then None else Some (Z.to_nat j).

(** [doc.rerank_score = score] on the object at position [i]. *)
Fixpoint set_rerank_score (documents : list SourceDocument) (i : nat)
    (score : float) : list SourceDocument :=
  match documents, i with
  | [], _ => []
  | d :: ds, O =>
      mkSourceDocument (doc_id d) (doc_content d) (doc_source d)
        (doc_title d) (doc_score d) (Some score) :: ds
  | d :: ds, S i' => d :: set_rerank_score ds i' score
  end.

(** The loop over [rerank_response.results].  The documents are shared
    objects: [documents] holds their current state, and [reranked]
    holds, for each appended reference, the position of its object.
    The loop stops at the first [IndexError]. *)
Fixpoint rerank_loop (results : list rerank_hit)
    (documents : list SourceDocument) (reranked : list nat)
  : list SourceDocument * (exn + list nat) :=
  match results with
  | [] => (documents, inr reranked)
  | result :: results' =>
      match resolve_index documents (hit_index result) with
      | None => (documents, inl IndexError)
      | Some i =>
          rerank_loop results'
            (set_rerank_score documents i (hit_relevance_score result))
            (reranked ++ [i])
      end
  end.

(** The objects that a list of references denotes. *)
Definition deref (documents : list SourceDocument) (refs : list nat)
  : list SourceDocument :=
  flat_map (fun i => match nth_error documents i with
                     | Some d => [d]
                     | None => []
                     end) refs.

(** [RetrievalService._rerank_documents].  The handler of the [try]
    sees the documents as the loop left them. *)
Definition rerank_documents
    (rerank : str -> list str -> Z -> exn + list rerank_hit)
    (query : str) (documents : list SourceDocument) (top_k : Z)
  : M (list SourceDocument) :=
  let doc_texts := map doc_content documents in
  rerank_response <-
    attempt (call (EvRerank query doc_texts top_k)
                  (rerank query doc_texts top_k)) ;;
  match rerank_response with
  | inl e => log_error ;;; ret (slice_to documents top_k)
  | inr results =>
      match rerank_loop results documents [] with
      | (documents', inl e) =>
          log_error ;;; ret (slice_to documents' top_k)
      | (documents', inr reranked) => ret (deref documents' reranked)
      end
  end.

(** [RetrievalService.retrieve_and_rerank] *)
Definition retrieve_and_rerank (query : str) (top_k rerank_top_k : Z)
  : M RetrievalResult :=
  try_except
    (retrieval_start <- time_time sv ;;
     query_embedding <- generate_query_embedding sv query ;;
     similar_docs <- query_similar sv query_embedding top_k ;;
     t <- time_time sv ;;
     let retrieval_time := fsub t retrieval_start in
     if negb (truthy similar_docs) then
       ret (mkRetrievalResult [] retrieval_time (flit 0))
     else
       let documents := map to_source_document similar_docs in
       rerank_start <- time_time sv ;;
       documents <-
         match cohere_client sv with
         | Some rerank =>
             if 1 <? len documents then
               rerank_documents rerank query documents rerank_top_k
             else ret (slice_to documents rerank_top_k)
         | None => ret (slice_to documents rerank_top_k)
         end ;;
       t' <- time_time sv ;;
       let rerank_time := fsub t' rerank_start in
       ret (mkRetrievalResult documents retrieval_time rerank_time))
    (fun e => log_error ;;; raise e).

End WithFloat.
End Retrieval.

(** ** routes.py *)

Module Routes.
Import Py Eff Schemas Services LLM Retrieval.
Local Open Scope eff_scope.

Section WithFloat.
Context `{PyFloat}.
Variable sv : services.

Definition no_results_answer : str :=
  lit "I couldn't find any relevant information to answer your question. Please try rephrasing your query or upload relevant documents.".

(** [DocumentRoutes._no_results_response] *)
Definition no_results_response (retrieval_results : RetrievalResult)
  : QueryResponse :=
  mkQueryResponse no_results_answer [] []
    (rr_retrieval_time retrieval_results)
    (rr_rerank_time retrieval_results)
    (flit 0)
    (fadd (rr_retrieval_time retrieval_results)
          (rr_rerank_time retrieval_results))
    None None.

(** [DocumentRoutes._build_response] *)
Definition build_response (retrieval_results : RetrievalResult)
    (llm_response : LLMResponse) : QueryResponse :=
  let total_time :=
    fadd (fadd (rr_retrieval_time retrieval_results)
               (rr_rerank_time retrieval_results))
         (llm_generation_time llm_response) in
  mkQueryResponse (llm_answer llm_response)
    (llm_citations llm_response)
    (rr_documents retrieval_results)
    (rr_retrieval_time retrieval_results)
    (rr_rerank_time retrieval_results)
    (llm_generation_time llm_response)
    total_time
    (llm_token_usage llm_response)
    (llm_estimated_cost llm_response).

(** [DocumentRoutes.query_documents] *)
Definition query_documents (request : QueryRequest) : M QueryResponse :=
  try_except
    (retrieval_results <-
       retrieve_and_rerank sv (req_query request) (req_top_k request)
         (req_rerank_top_k request) ;;
     if negb (truthy (rr_documents retrieval_results)) then
       ret (no_results_response retrieval_results)
     else
       llm_response <-
         generate_answer sv (req_query request)
           (rr_documents retrieval_results) ;;
       ret (build_response retrieval_results llm_response))
    (fun e => log_error ;;; raise (HTTPException 500 e)).

End WithFloat.
End Routes.

(** ** A concrete setting for examples *)

(** Exact rational arithmetic as an instance of [PyFloat]: every
    operation returns the mathematical result in lowest terms, and
    [round] goes to the nearest multiple of [10^-n], ties to even. *)
Module Exact.
Import Py Eff Schemas Services.

Definition round_half_even (x : Q) (ndigits : Z) : Q :=
  let scale := Z.to_pos (10 ^ ndigits) in
  let y := (x * (Zpos scale # 1))%Q in
  let f := Qfloor y in
  let k := match (y - (f # 1) ?= 1 # 2)%Q with
           | Lt => f
           | Gt => f + 1
           | Eq => if Z.even f then f else f + 1
           end in
  Qred (k # scale).

Definition exact_float : PyFloat := {|
  float := Q;
  flit := Qred;
  fadd := fun x y => Qred (x + y);
  fsub := fun x y => Qred (x - y);
  fmul := fun x y => Qred (x * y);
  int_truediv := fun a b => Qred (a # Z.to_pos b);
  fround := round_half_even;
  fle := Qle
|}.

Definition doc (n : string) (text : string) : @SourceDocument exact_float :=
  @mkSourceDocument exact_float (lit n) (lit text) (lit "notes.txt")
    (lit "Notes") (1 # 2) None.

Definition three_docs : list (@SourceDocument exact_float) :=
  [doc "a" "alpha"; doc "b" "beta"; doc "c" "gamma"].

Definition hit (n : string) : @index_match exact_float :=
  @mkMatch exact_float (lit n) (1 # 2) (Some (lit "text")) (Some (lit "notes.txt"))
    (Some (lit "Notes")).

(** The clock advances by one second per reading; the index answers
    with [hits]; the reranker, when present, fails; the model answers,
    but its response has no readable text. *)
Definition sample_services (hits : list (@index_match exact_float))
    (with_reranker : bool) : @services exact_float :=
  @mkServices exact_float
    (fun n => inject_Z (Z.of_nat n))
    (fun _ _ => inr [1 # 1; 0 # 1])
    (Some (fun _ _ => inr hits))
    (if with_reranker then Some (fun _ _ _ => inl (ServiceError 503))
     else None)
    (Some (fun _ => inr (mkResponse (inl (ValueError (lit "no text")))))).

Definition w0 : world := mkWorld 0 [].

End Exact.

(** ** Predicates used in the statements *)

Module Spec.
Import Py Chunking.

(** The first character of [s], if there is one, is not whitespace. *)
Definition head_ok (s : str) : Prop :=
  match s with
  | [] => True
  | c :: _ => isspace c = false
  end.

(** Neither end of [s] is whitespace: [s.strip() == s]. *)
Definition trimmed (s : str) : Prop := head_ok s /\ head_ok (rev s).

(** A word of [split]: not empty and free of whitespace. *)
Definition word (w : str) : Prop :=
  w <> [] /\ Forall (fun c => isspace c = false) w.

(** A computation that leaves no event of the kind [p] in the trace. *)
Definition silent {A} (p : Eff.event -> bool) (m : Eff.M A) : Prop :=
  forall w r w',
    m w = (r, w') ->
    filter p (Eff.trace w') = filter p (Eff.trace w).

(** The content of a chunk is not empty, also after trimming. *)
Definition chunk_nonempty (c : TextChunk) : Prop :=
  content c <> [] /\ strip (content c) <> [].

(** What the [k]-th chunk made from [source] looks like: its position is
    [k], and its id is the source, the position and the first eight
    characters of the [k]-th uuid, joined by underscores. *)
Definition chunk_at (uuid4_hex : nat -> str) (source : str) (k : nat)
    (c : TextChunk) : Prop :=
  dict_get (metadata c) (lit "position") = Some (VInt (Z.of_nat k)) /\
  id c = source ++ lit "_" ++ str_of_int (Z.of_nat k) ++ lit "_"
         ++ slice (uuid4_hex k) 0 8.

(** The chunks made so far are numbered from 0, and the counters agree
    with their number. *)
Definition numbered (uuid4_hex : nat -> str) (source : str)
    (st : loop_state) : Prop :=
  st_chunk_num st = len (st_chunks st) /\
  st_uuid_calls st = List.length (st_chunks st) /\
  forall k c, nth_error (st_chunks st) k = Some c ->
              chunk_at uuid4_hex source k c.

(** Two loop states that differ at most in the ids of their chunks. *)
Definition same_shape (st1 st2 : loop_state) : Prop :=
  st_start st1 = st_start st2 /\
  st_chunk_num st1 = st_chunk_num st2 /\
  map content (st_chunks st1) = map content (st_chunks st2) /\
  map metadata (st_chunks st1) = map metadata (st_chunks st2).

(** A short upload and the chunk made from it. *)
Definition abc_text : str := lit "  A  B
 C ".

Definition abc_chunk : TextChunk :=
  mkTextChunk (lit "doc_0_01234567") (lit "A B C")
    [ (lit "source", VStr (lit "doc"));
      (lit "title", VStr (lit "Title"));
      (lit "section", VStr (lit "main"));
      (lit "position", VInt 0) ].

End Spec.

(** ** Further predicates used in the statements *)

Module SpecMore.
Import Py Chunking.

(** [s] occurs in [l] as a contiguous piece. *)
Definition infix {A : Type} (s l : list A) : Prop :=
  exists pre post, l = pre ++ s ++ post.

(** A text made of whitespace only (or empty). *)
Definition blank (text : str) : Prop :=
  Forall (fun c => isspace c = true) text.


End SpecMore.

(** ** Documents with rerank scores *)

Module Scored.
Import Py Schemas Services Retrieval.

Section WithFloat.
Context `{PyFloat}.

(** The document [d] after [d.rerank_score = score]. *)
Definition with_rerank_score (d : SourceDocument) (score : float)
  : SourceDocument :=
  mkSourceDocument (doc_id d) (doc_content d) (doc_source d) (doc_title d)
    (doc_score d) (Some score).

(** The documents after the scores of the hits [results], whose indices
    are positions of the list, were attached one after the other. *)
Definition apply_scores (results : list rerank_hit)
    (documents : list SourceDocument) : list SourceDocument :=
  fold_left
    (fun ds h =>
       set_rerank_score ds (Z.to_nat (hit_index h)) (hit_relevance_score h))
    results documents.

(** A hit whose index is a position of a list of [n] documents. *)
Definition in_range (n : Z) (h : rerank_hit) : Prop :=
  0 <= hit_index h < n.

End WithFloat.
End Scored.

(** ** Further concrete settings *)

Module ExactMore.
Import Py Eff Schemas Services Exact.

Definition rerank_hit_at (i : Z) (score : Q) : @rerank_hit exact_float :=
  @mkHit exact_float i score.

(** As [sample_services], with a reranker that answers [results]. *)
Definition reranking_services (hits : list (@index_match exact_float))
    (results : list (@rerank_hit exact_float)) : @services exact_float :=
  @mkServices exact_float
    (fun n => inject_Z (Z.of_nat n))
    (fun _ _ => inr [1 # 1; 0 # 1])
    (Some (fun _ _ => inr hits))
    (Some (fun _ _ _ => inr results))
    None.

Definition abc_hits : list (@index_match exact_float) :=
  [hit "a"; hit "b"; hit "c"].

Definition abc_documents : list (@SourceDocument exact_float) :=
  map (Stores.to_source_document (H := exact_float)) abc_hits.

(** An answer of the reranker: the third candidate, then the first. *)
Definition swap_results : list (@rerank_hit exact_float) :=
  [rerank_hit_at 2 (9 # 10); rerank_hit_at 0 (1 # 2)].

(** An answer of the reranker whose second hit names no candidate. *)
Definition good_results : list (@rerank_hit exact_float) :=
  [rerank_hit_at 1 (9 # 10)].

Definition bad_result : @rerank_hit exact_float := rerank_hit_at 7 (1 # 2).

(** Services whose embedding call fails. *)
Definition failing_embedding : @services exact_float :=
  @mkServices exact_float
    (fun n => inject_Z (Z.of_nat n))
    (fun _ _ => inl (ServiceError 429))
    (Some (fun _ _ => inr []))
    None
    None.

End ExactMore.

(** ** The ingest path: embedding of documents, upsert, upload *)

(** Computations that may raise and that leave a trace of events of some
    type [event]. *)
Module Traced.
Import Eff.

Section WithEvent.
Context {event : Type}.

Definition T (A : Type) : Type := list event -> (exn + A) * list event.

Definition tret {A} (a : A) : T A := fun tr => (inr a, tr).

Definition tbind {A B} (m : T A) (k : A -> T B) : T B :=
  fun tr => match m tr with
            | (inl e, tr') => (inl e, tr')
            | (inr a, tr') => k a tr'
            end.

Definition traise {A} (e : exn) : T A := fun tr => (inl e, tr).

(** [try: m except Exception as e: h e] *)
Definition ttry {A} (m : T A) (h : exn -> T A) : T A :=
  fun tr => match m tr with
            | (inl e, tr') => h e tr'
            | (inr a, tr') => (inr a, tr')
            end.

Definition temit (ev : event) : T unit := fun tr => (inr tt, tr ++ [ev]).

(** A call to an external service: recorded, then answered. *)
Definition tcall {A} (ev : event) (answer : exn + A) : T A :=
  fun tr => (answer, tr ++ [ev]).

End WithEvent.
End Traced.

Declare Scope traced_scope.
Delimit Scope traced_scope with traced.
Notation "x <- m ;; k" := (Traced.tbind m (fun x => k))
  (at level 61, m at next level, right associativity) : traced_scope.
Notation "m ;;; k" := (Traced.tbind m (fun _ => k))
  (at level 61, right associativity) : traced_scope.

Module Ingest.
Import Py Eff Chunking Traced.
Local Open Scope traced_scope.

(** [bytes]: a list of bytes. *)
Definition bytes := list ascii.

(** The dictionary [{**d, k: v}]: the value under [k] is replaced where
    the key stands, or the pair is added at the end. *)
Fixpoint dict_set (d : dict) (k : str) (v : value) : dict :=
  match d with
  | [] => [(k, v)]
  | (k', v') :: d' =>
      if str_eqb k k' then (k', v) :: d' else (k', v') :: dict_set d' k v
  end.

(** [c.lower()] on one character of the Latin-1 range. *)
Definition lower_char (c : ascii) : ascii :=
  let n := Z.of_N (N_of_ascii c) in
  if ((65 <=? n) && (n <=? 90))
     || ((192 <=? n) && (n <=? 222) && negb (n =? 215))
  then ascii_of_N (Z.to_N (n + 32))
  else c.

(** [s.lower()] *)
Definition lower (s : str) : str := map lower_char s.

(** [s.endswith(suffix)] *)
Definition endswith (s suffix : str) : bool :=
  str_eqb (skipn (List.length s - List.length suffix) s) suffix
  && (List.length suffix <=? List.length s)%nat.

(** An uploaded file, read. *)
Record UploadFile : Type := mkUploadFile {
  filename : option str;
  size : Z;
  file_content : bytes
}.

Record DocumentUploadResponse : Type := mkUploadResponse {
  up_message : str;
  up_chunks_created : Z;
  up_document_id : str
}.

Section WithFloat.
Context `{PyFloat}.

(** Calls to the outside and log lines of the ingest path. *)
Inductive event : Type :=
| IvEmbed (content task_type : str)
| IvUpsert (doc_id : str) (embedding : list float) (metadata : dict)
| IvLogError.

(** The handles and settings of the ingest path.  [index_upsert] is
    [None] while the vector store is not initialised; [pdf_pages] opens a
    PDF and reads the text of its pages; [utf8_decode] and
    [cp1252_decode] are [None] on a [UnicodeDecodeError];
    [max_file_size_mb] is the integer read from [MAX_FILE_SIZE_MB]. *)
Record ingest_services : Type := mkIngest {
  ing_embed_content : str -> str -> exn + list float;
  index_upsert : option (str -> list float -> dict -> exn + unit);
  pdf_pages : bytes -> exn + list str;
  utf8_decode : bytes -> option str;
  cp1252_decode : bytes -> option str;
  max_file_size_mb : Z;
  uuid4_hex : nat -> str
}.

Variable sv : ingest_services.

(** Computations of the ingest path. *)
Definition IT (A : Type) : Type := @T event A.

Definition log_error : IT unit := temit IvLogError.

(** An [HTTPException] with a literal detail: [HTTPException s e] carries
    the detail [str(e)], and [str(ValueError(m))] is [m]. *)
Definition http_error (status : Z) (detail : string) : exn :=
  HTTPException status (ValueError (lit detail)).

(** [EmbeddingService.generate_embedding] *)
Definition generate_embedding (text : str) : IT (list float) :=
  ttry
    (let cleaned_text := Stores.embedding_clean_text text in
     let task_type := lit "retrieval_document" in
     tcall (IvEmbed cleaned_text task_type)
           (ing_embed_content sv cleaned_text task_type))
    (fun e => log_error ;;; traise e).



(** [EmbeddingService.get_embedding_dimension] *)
Definition get_embedding_dimension : Z := 768.

(** [VectorStoreService.upsert_document] *)
Definition upsert_document (doc_id : str) (embedding : list float)
    (metadata : dict) (content : str) : IT unit :=
  ttry
    (match index_upsert sv with
     | None => traise (ValueError (lit "Vector store not initialized"))
     | Some upsert =>
         let full_metadata := dict_set metadata (lit "content") (VStr content) in
         tcall (IvUpsert doc_id embedding full_metadata)
               (upsert doc_id embedding full_metadata)
     end)
    (fun e => log_error ;;; traise e).

(** The [for] loop of [_store_chunks]. *)
Fixpoint store_each (chunks : list TextChunk) (stored_count : Z) : IT Z :=
  match chunks with
  | [] => tret stored_count
  | chunk :: rest =>
      embedding <- generate_embedding (content chunk) ;;
      upsert_document (id chunk) embedding (metadata chunk) (content chunk) ;;;
      store_each rest (stored_count + 1)
  end.

(** [DocumentRoutes._store_chunks] *)
Definition store_chunks (chunks : list TextChunk) : IT Z :=
  store_each chunks 0.

(** [DocumentRoutes._extract_pdf_text].  The [except Exception] clause
    also catches the [HTTPException] raised inside the [try]. *)
Definition extract_pdf_text (content : bytes) : IT str :=
  ttry
    (match pdf_pages sv content with
     | inl e => traise e
     | inr pages =>
         let text_content := List.concat pages in
         if negb (truthy (strip text_content)) then
           traise (http_error 400
             "PDF file appears to be empty or contains no extractable text")
         else tret text_content
     end)
    (fun e =>
       log_error ;;;
       traise (http_error 400
         "Unable to process PDF file. Please ensure it contains extractable text.")).

(** The encodings tried after UTF-8. *)
Inductive encoding : Type := Latin1 | Cp1252 | Iso8859_1.

(** [content.decode(enc)]: Latin-1 maps every byte to the code point of
    the same number. *)
Definition decode (enc : encoding) (content : bytes) : option str :=
  match enc with
  | Latin1 | Iso8859_1 => Some content
  | Cp1252 => cp1252_decode sv content
  end.

(** The [for] loop of [_extract_text_file]. *)
Fixpoint try_encodings (encodings : list encoding) (content : bytes)
  : IT str :=
  match encodings with
  | [] =>
      traise (http_error 400
        "Unable to read file. Please ensure it's a valid text file with UTF-8, Latin-1, or similar encoding.")
  | enc :: rest =>
      match decode enc content with
      | Some text_content => tret text_content
      | None => try_encodings rest content
      end
  end.

(** [DocumentRoutes._extract_text_file] *)
Definition extract_text_file (content : bytes) : IT str :=
  match utf8_decode sv content with
  | Some text_content => tret text_content
  | None => try_encodings [Latin1; Cp1252; Iso8859_1] content
  end.

(** [file.filename or "uploaded_file"] *)
Definition source_name (file : UploadFile) : str :=
  match filename file with
  | Some name => if truthy name then name else lit "uploaded_file"
  | None => lit "uploaded_file"
  end.

(** [file.filename and file.filename.lower().endswith('.pdf')] *)
Definition is_pdf (file : UploadFile) : bool :=
  match filename file with
  | Some name => truthy name && endswith (lower name) (lit ".pdf")
  | None => false
  end.

(** [DocumentRoutes._extract_text] *)
Definition extract_text (file : option UploadFile) (text : option str)
  : IT (str * str) :=
  match text with
  | Some ((_ :: _) as t) => tret (t, lit "text_input")
  | _ =>
      match file with
      | None => traise (http_error 400 "Either file or text must be provided")
      | Some f =>
          if max_file_size_mb sv * 1024 * 1024 <? size f then
            traise (http_error 413 "File size exceeds maximum allowed size")
          else if is_pdf f then
            text_content <- extract_pdf_text (file_content f) ;;
            tret (text_content, source_name f)
          else
            text_content <- extract_text_file (file_content f) ;;
            tret (text_content, source_name f)
      end
  end.

(** The two [except] clauses of [upload_document]: an [HTTPException]
    is raised again as it is; any other exception is logged and replaced
    by an [HTTPException] with status 500. *)
Definition http_or_500 {A : Type} (r : (exn + A) * list event)
  : (exn + A) * list event :=
  match r with
  | (inl (HTTPException status detail), tr) =>
      (inl (HTTPException status detail), tr)
  | (inl e, tr) => (inl (HTTPException 500 e), tr ++ [IvLogError])
  | (inr a, tr) => (inr a, tr)
  end.

(** [DocumentRoutes.upload_document], with at most [fuel] iterations of
    the loop of [chunk_text]; [None] when the chunking has not returned
    within them. *)
Definition upload_document (fuel : nat) (file : option UploadFile)
    (text : option str) (title : str)
  : list event -> option ((exn + DocumentUploadResponse) * list event) :=
  fun tr =>
    match extract_text file text tr with
    | (inl e, tr') => Some (http_or_500 (inl e, tr'))
    | (inr (text_content, source), tr') =>
        match chunk_text fuel (uuid4_hex sv) text_content source title
                (lit "main") with
        | OutOfFuel => None
        | Raised => Some (http_or_500 (inl IndexError, tr'))
        | Returned chunks =>
            Some (http_or_500
              ((stored_count <- store_chunks chunks ;;
                tret (mkUploadResponse
                        (lit "Successfully processed and stored "
                         ++ str_of_int stored_count ++ lit " chunks")
                        stored_count source)) tr'))
        end
    end.




End WithFloat.
End Ingest.

(** ** A concrete setting for the ingest path *)

Module IngestSamples.
Import Py Eff Chunking Exact Ingest.

(** Services that embed every text, store every vector but those of the
    ids in [refused], read every PDF as the pages [pages], and decode
    UTF-8 only when [utf8_ok]. *)
Definition sample_ingest (refused : list str) (pages : list str)
    (utf8_ok : bool) : @ingest_services exact_float :=
  @mkIngest exact_float
    (fun _ _ => inr [1 # 1; 0 # 1])
    (Some (fun doc_id _ _ =>
             if existsb (str_eqb doc_id) refused
             then inl (ServiceError 503) else inr tt))
    (fun _ => inr pages)
    (fun content => if utf8_ok then Some content else None)
    (fun _ => None)
    10
    fixed_uuid.

Definition notes_file : UploadFile :=
  mkUploadFile (Some (lit "Notes.PDF")) 2048 (lit "%PDF-1.4 ...").

Definition plain_file : UploadFile :=
  mkUploadFile (Some (lit "notes.txt")) 2048 (lit "plain notes").


End IngestSamples.

(** * Properties *)

(** ** Python primitives *)

Module PyFacts.
Import Py Spec.

Lemma len_nonneg {A} (l : list A) : 0 <= len l.
Proof. unfold len; lia. Qed.

Lemma len_app {A} (l1 l2 : list A) : len (l1 ++ l2) = len l1 + len l2.
Proof. unfold len; rewrite length_app; lia. Qed.

Lemma slice_prefix {A} (l : list A) (b : Z) :
  0 <= b -> slice l 0 b = firstn (Z.to_nat b) l.
Proof.
  intros Hb. unfold slice, clamp.
  pose proof (len_nonneg l) as Hl.
  replace (0 <? 0) with false by reflexivity.
  destruct (b <? 0) eqn:E; [apply Z.ltb_lt in E; lia|].
  rewrite (Z.min_l 0 (len l)) by assumption.
  change (Z.to_nat 0) with 0%nat. cbn [skipn]. rewrite Z.sub_0_r.
  destruct (Z.min_spec b (len l)) as [[H1 ->]|[H1 ->]]; [reflexivity|].
  unfold len in *. rewrite Nat2Z.id, firstn_all.
  symmetry; apply firstn_all2; lia.
Qed.

Lemma slice_whole {A} (l : list A) (b : Z) :
  len l <= b -> slice l 0 b = l.
Proof.
  intros Hb. pose proof (len_nonneg l).
  rewrite slice_prefix by lia. apply firstn_all2. unfold len in *; lia.
Qed.

Lemma slice_to_firstn {A} (l : list A) (b : Z) :
  0 <= b -> slice_to l b = firstn (Z.to_nat b) l.
Proof. apply slice_prefix. Qed.

Lemma Forall_slice {A} (P : A -> Prop) (l : list A) (a b : Z) :
  Forall P l -> Forall P (slice l a b).
Proof.
  intros H. unfold slice.
  set (n := Z.to_nat (clamp (len l) a)).
  set (m := Z.to_nat (clamp (len l) b - clamp (len l) a)).
  rewrite <- (firstn_skipn n l) in H. apply Forall_app in H as [_ H].
  rewrite <- (firstn_skipn m (skipn n l)) in H.
  apply Forall_app in H as [H _]. exact H.
Qed.

Lemma lstrip_head_ok (s : str) : head_ok (lstrip s).
Proof.
  induction s as [|c t IH]; simpl; [exact I|].
  destruct (isspace c) eqn:E; [exact IH|exact E].
Qed.

Lemma lstrip_fixed (s : str) : head_ok s -> lstrip s = s.
Proof. destruct s as [|c t]; simpl; [reflexivity|]. intros ->; reflexivity. Qed.

Lemma lstrip_app_last (l : str) (c : ascii) :
  isspace c = false -> lstrip (l ++ [c]) = lstrip l ++ [c].
Proof.
  intros Hc. induction l as [|d l IH]; simpl.
  - rewrite Hc; reflexivity.
  - destruct (isspace d); [exact IH|reflexivity].
Qed.

Lemma rstrip_head_ok (s : str) : head_ok s -> head_ok (rstrip s).
Proof.
  unfold rstrip. destruct s as [|c t]; simpl; [intros _; exact I|].
  intros Hc. rewrite lstrip_app_last by assumption.
  rewrite rev_app_distr. simpl. exact Hc.
Qed.

Lemma strip_trimmed (s : str) : trimmed (strip s).
Proof.
  unfold trimmed, strip. split.
  - apply rstrip_head_ok, lstrip_head_ok.
  - unfold rstrip. rewrite rev_involutive. apply lstrip_head_ok.
Qed.

Lemma strip_fixed (s : str) : trimmed s -> strip s = s.
Proof.
  intros [H1 H2]. unfold strip, rstrip.
  rewrite (lstrip_fixed s H1), (lstrip_fixed _ H2).
  apply rev_involutive.
Qed.

Lemma strip_idempotent (s : str) : strip (strip s) = strip s.
Proof. apply strip_fixed, strip_trimmed. Qed.

Lemma split_words (s : str) : Forall word (split s).
Proof.
  induction s as [|c t IH]; simpl; [constructor|].
  destruct (isspace c) eqn:Ec; [exact IH|].
  destruct t as [|c' t'].
  - repeat constructor; [discriminate|exact Ec].
  - destruct (isspace c') eqn:Ec'.
    + constructor; [|exact IH].
      split; [discriminate|repeat constructor; exact Ec].
    + destruct (split (c' :: t')) as [|w ws].
      * repeat constructor; [discriminate|exact Ec].
      * inversion IH as [|? ? [Hw1 Hw2] Hws]; subst.
        constructor; [|exact Hws].
        split; [discriminate|constructor; assumption].
Qed.

Lemma word_head_ok (w : str) : word w -> head_ok w.
Proof. intros [_ H]. destruct w; [exact I|]. inversion H; assumption. Qed.

Lemma word_rev (w : str) : word w -> word (rev w).
Proof.
  intros [Hn H]. split.
  - intros E. apply Hn. rewrite <- (rev_involutive w), E. reflexivity.
  - apply Forall_rev, H.
Qed.

Lemma join_nonempty (ws : list str) :
  Forall word ws -> ws <> [] -> join [space] ws <> [].
Proof.
  intros H Hn. destruct ws as [|w ws]; [contradiction|].
  inversion H as [|? ? [Hw _] _]; subst.
  simpl. destruct ws; [exact Hw|].
  destruct w; [contradiction|discriminate].
Qed.

Lemma join_trimmed (ws : list str) :
  Forall word ws -> trimmed (join [space] ws).
Proof.
  intros H. split.
  - destruct ws as [|w ws]; [exact I|].
    inversion H as [|? ? Hw _]; subst. simpl.
    pose proof (word_head_ok w Hw) as Hh. destruct Hw as [Hn _].
    destruct ws; [exact Hh|].
    destruct w; [contradiction|exact Hh].
  - induction H as [|w ws Hw Hws IH]; [exact I|].
    simpl. destruct ws as [|w' ws']; [apply word_head_ok, word_rev, Hw|].
    assert (Hne : join [space] (w' :: ws') <> [])
      by (apply join_nonempty; [assumption|discriminate]).
    rewrite rev_app_distr.
    change ([space] ++ join [space] (w' :: ws'))
      with (space :: join [space] (w' :: ws')).
    cbn [rev].
    destruct (rev (join [space] (w' :: ws'))) as [|c r] eqn:E.
    + exfalso. apply Hne.
      rewrite <- (rev_involutive (join _ _)), E. reflexivity.
    + exact IH.
Qed.

End PyFacts.

(** ** services/chunking.py *)

Module ChunkingFacts.
Import Py Chunking Spec PyFacts.

Lemma clean_text_trimmed (text : str) : trimmed (clean_text text).
Proof. apply join_trimmed, split_words. Qed.

Lemma strip_clean_text (text : str) :
  strip (clean_text text) = clean_text text.
Proof. apply strip_fixed, clean_text_trimmed. Qed.

Section Loop.
Variable uuid4_hex : nat -> str.
Variables (cleaned source title section : str).

Local Abbreviation body := (loop_body uuid4_hex cleaned source title section).
Local Abbreviation loop := (chunk_loop uuid4_hex cleaned source title section).

Lemma chunk_loop_unfold (fuel : nat) (st : loop_state) :
  loop fuel st =
  if st_start st <? len cleaned then
    match fuel with
    | O => OutOfFuel
    | S fuel' =>
        match body st with
        | None => Raised
        | Some st' => loop fuel' st'
        end
    end
  else Returned (st_chunks st).
Proof. destruct fuel; reflexivity. Qed.

Lemma chunk_loop_done (fuel : nat) (st : loop_state) :
  len cleaned <= st_start st -> loop fuel st = Returned (st_chunks st).
Proof.
  intros H. rewrite chunk_loop_unfold.
  destruct (st_start st <? len cleaned) eqn:E; [|reflexivity].
  apply Z.ltb_lt in E. lia.
Qed.

Lemma chunk_loop_step (fuel : nat) (st st' : loop_state) :
  st_start st < len cleaned -> body st = Some st' ->
  loop (S fuel) st = loop fuel st'.
Proof.
  intros H Hb. rewrite chunk_loop_unfold.
  apply Z.ltb_lt in H. rewrite H, Hb. reflexivity.
Qed.

(** The state after one pass, when the window ends at [end_]. *)
Lemma loop_body_emits (st : loop_state) (end_ : Z) :
  window_end cleaned (st_start st) = Some end_ ->
  strip (slice cleaned (st_start st) end_) <> [] ->
  body st =
  Some (mkState (next_start end_) (st_chunk_num st + 1)
          (st_chunks st
           ++ [make_chunk uuid4_hex source title section st
                 (strip (slice cleaned (st_start st) end_))])
          (S (st_uuid_calls st))).
Proof.
  intros Hw Hne. unfold loop_body. rewrite Hw.
  destruct (strip (slice cleaned (st_start st) end_)); [contradiction|].
  reflexivity.
Qed.

Lemma loop_body_skips (st : loop_state) (end_ : Z) :
  window_end cleaned (st_start st) = Some end_ ->
  strip (slice cleaned (st_start st) end_) = [] ->
  body st =
  Some (mkState (next_start end_) (st_chunk_num st) (st_chunks st)
          (st_uuid_calls st)).
Proof.
  intros Hw He. unfold loop_body. rewrite Hw, He. reflexivity.
Qed.

(** Every pass keeps the chunks made so far and adds at most one, which
    is a trimmed, non-empty slice. *)
Lemma loop_body_chunks (st st' : loop_state) :
  body st = Some st' ->
  (st_chunks st' = st_chunks st /\
   st_chunk_num st' = st_chunk_num st /\
   st_uuid_calls st' = st_uuid_calls st) \/
  (exists text,
     text <> [] /\ strip text = text /\
     st_chunks st' =
       st_chunks st ++ [make_chunk uuid4_hex source title section st text] /\
     st_chunk_num st' = st_chunk_num st + 1 /\
     st_uuid_calls st' = S (st_uuid_calls st)).
Proof.
  unfold loop_body.
  destruct (window_end cleaned (st_start st)) as [end_|]; [|discriminate].
  destruct (strip (slice cleaned (st_start st) end_)) as [|c t] eqn:E;
    cbn [truthy]; intros [= <-]; cbn.
  - left. auto.
  - right. exists (c :: t).
    repeat split; try discriminate. rewrite <- E. apply strip_idempotent.
Qed.

Lemma loop_body_nonempty (st st' : loop_state) :
  Forall chunk_nonempty (st_chunks st) -> body st = Some st' ->
  Forall chunk_nonempty (st_chunks st').
Proof.
  intros Hinv Hb.
  destruct (loop_body_chunks st st' Hb)
    as [(-> & _)|(text & Hne & Hs & -> & _)]; [exact Hinv|].
  apply Forall_app. split; [exact Hinv|].
  constructor; [|constructor].
  split; cbn [content make_chunk]; [exact Hne|rewrite Hs; exact Hne].
Qed.

Lemma chunk_loop_nonempty (fuel : nat) :
  forall st chunks,
    Forall chunk_nonempty (st_chunks st) ->
    loop fuel st = Returned chunks -> Forall chunk_nonempty chunks.
Proof.
  induction fuel as [|fuel IH]; intros st chunks Hinv;
    rewrite chunk_loop_unfold;
    destruct (st_start st <? len cleaned); try discriminate;
    try (intros [= <-]; exact Hinv).
  destruct (body st) as [st'|] eqn:Hb; [|discriminate].
  apply IH. eapply loop_body_nonempty; eassumption.
Qed.

Lemma loop_body_numbered (st st' : loop_state) :
  numbered uuid4_hex source st -> body st = Some st' ->
  numbered uuid4_hex source st'.
Proof.
  intros (Hn & Hu & Hk) Hb.
  destruct (loop_body_chunks st st' Hb)
    as [(E1 & E2 & E3)|(text & _ & _ & E1 & E2 & E3)].
  - unfold numbered. rewrite E1, E2, E3. auto.
  - unfold numbered. rewrite E1, E2, E3. split; [|split].
    + rewrite len_app, Hn. reflexivity.
    + rewrite length_app, Hu. simpl. lia.
    + intros k c Hc.
      destruct (Nat.lt_ge_cases k (List.length (st_chunks st))) as [Hlt|Hge].
      * rewrite nth_error_app1 in Hc by assumption. auto.
      * rewrite nth_error_app2 in Hc by assumption.
        destruct (k - List.length (st_chunks st))%nat as [|j] eqn:Ek;
          [|destruct j; discriminate].
        injection Hc as <-.
        assert (k = List.length (st_chunks st)) as -> by lia.
        unfold chunk_at, make_chunk; cbn [metadata id].
        rewrite Hn, Hu. unfold len. split; reflexivity.
Qed.

Lemma chunk_loop_numbered (fuel : nat) :
  forall st chunks,
    numbered uuid4_hex source st -> loop fuel st = Returned chunks ->
    forall k c, nth_error chunks k = Some c -> chunk_at uuid4_hex source k c.
Proof.
  induction fuel as [|fuel IH]; intros st chunks Hinv;
    rewrite chunk_loop_unfold;
    destruct (st_start st <? len cleaned); try discriminate;
    try (intros [= <-]; apply Hinv).
  destruct (body st) as [st'|] eqn:Hb; [|discriminate].
  apply IH. eapply loop_body_numbered; eassumption.
Qed.

Lemma chunk_loop_more_fuel (fuel fuel' : nat) :
  forall st, loop fuel st <> OutOfFuel -> (fuel <= fuel')%nat ->
             loop fuel' st = loop fuel st.
Proof.
  revert fuel'. induction fuel as [|fuel IH]; intros fuel' st Hr Hle;
    rewrite (chunk_loop_unfold fuel') ; rewrite chunk_loop_unfold in Hr |- *;
    destruct (st_start st <? len cleaned); try reflexivity;
    try (exfalso; apply Hr; reflexivity).
  destruct fuel' as [|fuel']; [lia|].
  destruct (body st) as [st'|]; [|reflexivity].
  apply IH; [exact Hr|lia].
Qed.

Lemma reachable_nonempty (n : nat) (st : loop_state) :
  reachable_in uuid4_hex cleaned source title section n st ->
  Forall chunk_nonempty (st_chunks st).
Proof.
  induction 1 as [|n st st' _ IH _ Hb]; [constructor|].
  eapply loop_body_nonempty; eassumption.
Qed.

Lemma reachable_numbered (n : nat) (st : loop_state) :
  reachable_in uuid4_hex cleaned source title section n st ->
  numbered uuid4_hex source st.
Proof.
  induction 1 as [|n st st' _ IH _ Hb].
  - split; [|split]; try reflexivity. intros [|k] c; discriminate.
  - eapply loop_body_numbered; eassumption.
Qed.

(** A run of the loop from the start goes through the reachable states. *)
Lemma chunk_loop_reachable (n : nat) (st : loop_state) :
  reachable_in uuid4_hex cleaned source title section n st ->
  forall fuel, loop (n + fuel) init_state = loop fuel st.
Proof.
  induction 1 as [|n st st' _ IH Hlt Hb]; intros fuel; [reflexivity|].
  replace (S n + fuel)%nat with (n + S fuel)%nat by lia.
  rewrite IH. apply chunk_loop_step; assumption.
Qed.

(** What the loop returns is the list of chunks of a reachable state at
    which the loop test fails. *)
Lemma chunk_loop_returned (fuel : nat) :
  forall n st chunks,
    reachable_in uuid4_hex cleaned source title section n st ->
    loop fuel st = Returned chunks ->
    exists n' st',
      reachable_in uuid4_hex cleaned source title section n' st' /\
      len cleaned <= st_start st' /\ chunks = st_chunks st'.
Proof.
  induction fuel as [|fuel IH]; intros n st chunks Hreach;
    rewrite chunk_loop_unfold;
    destruct (st_start st <? len cleaned) eqn:E; try discriminate;
    try (intros [= <-]; exists n, st; apply Z.ltb_ge in E; auto).
  destruct (body st) as [st'|] eqn:Hb; [|discriminate].
  apply (IH (S n)). apply Z.ltb_lt in E.
  econstructor; eassumption.
Qed.

End Loop.

(** The control of the loop does not look at the uuids. *)
Lemma loop_body_same_shape (u1 u2 : nat -> str)
    (cleaned source title section : str) (st1 st2 st1' : loop_state) :
  same_shape st1 st2 ->
  loop_body u1 cleaned source title section st1 = Some st1' ->
  exists st2',
    loop_body u2 cleaned source title section st2 = Some st2' /\
    same_shape st1' st2'.
Proof.
  intros (Hs & Hn & Hc & Hm). unfold loop_body. rewrite <- Hs.
  destruct (window_end cleaned (st_start st1)) as [end_|]; [|discriminate].
  destruct (truthy (strip (slice cleaned (st_start st1) end_)));
    intros [= <-]; eexists; (split; [reflexivity|]);
    unfold same_shape; cbn [st_start st_chunk_num st_chunks].
  - rewrite !map_app. cbn. rewrite Hc, Hm, Hn. repeat split; reflexivity.
  - repeat split; assumption.
Qed.

Lemma chunk_loop_same_shape (u1 u2 : nat -> str)
    (cleaned source title section : str) (fuel : nat) :
  forall st1 st2 chunks1 chunks2,
    same_shape st1 st2 ->
    chunk_loop u1 cleaned source title section fuel st1 = Returned chunks1 ->
    chunk_loop u2 cleaned source title section fuel st2 = Returned chunks2 ->
    map content chunks1 = map content chunks2 /\
    map metadata chunks1 = map metadata chunks2.
Proof.
  induction fuel as [|fuel IH]; intros st1 st2 chunks1 chunks2 Hsh;
    rewrite !chunk_loop_unfold;
    destruct Hsh as (Hs & Hn & Hc & Hm); rewrite <- Hs;
    destruct (st_start st1 <? len cleaned); try discriminate;
    try (intros [= <-] [= <-]; auto).
  destruct (loop_body u1 cleaned source title section st1) as [st1'|] eqn:Hb;
    [|discriminate].
  destruct (loop_body_same_shape u1 u2 cleaned source title section
              st1 st2 st1') as (st2' & -> & Hsh');
    [unfold same_shape; auto|exact Hb|].
  apply IH. exact Hsh'.
Qed.

Lemma numbered_init (uuid4_hex : nat -> str) (source : str) :
  numbered uuid4_hex source init_state.
Proof.
  split; [|split]; try reflexivity. intros [|k] c; discriminate.
Qed.

(** *** Texts of at most 850 characters *)

Lemma first_window (uuid4_hex : nat -> str)
    (cleaned source title section : str) :
  trimmed cleaned -> 0 < len cleaned <= chunk_size ->
  loop_body uuid4_hex cleaned source title section init_state =
  Some (mkState (chunk_size - chunk_overlap) 1
          [make_chunk uuid4_hex source title section init_state cleaned] 1).
Proof.
  intros Ht [Hpos Hle].
  assert (Hw : window_end cleaned (st_start init_state) = Some chunk_size).
  { unfold window_end. cbn [st_start init_state]. rewrite Z.add_0_l.
    destruct (chunk_size <? len cleaned) eqn:E; [|reflexivity].
    apply Z.ltb_lt in E. lia. }
  assert (Hs : strip (slice cleaned (st_start init_state) chunk_size) = cleaned).
  { cbn [st_start init_state]. rewrite slice_whole by assumption.
    apply strip_fixed, Ht. }
  rewrite (loop_body_emits _ _ _ _ _ _ _ Hw); rewrite Hs.
  - reflexivity.
  - intros ->. cbn in Hpos. lia.
Qed.

(** C2, as amended: when the whitespace-normalized text is not empty and at
    most [chunk_size - chunk_overlap] = 850 characters long, [chunk_text]
    returns, after one pass of its loop, exactly one chunk; its content is
    the normalized text, which is its own trimmed form, and its position
    is 0. *)
Theorem short_text_single_chunk (fuel : nat) (uuid4_hex : nat -> str)
    (text source title section : str) :
  0 < len (clean_text text) <= chunk_size - chunk_overlap ->
  exists c,
    chunk_text (S fuel) uuid4_hex text source title section = Returned [c] /\
    content c = clean_text text /\
    content c = strip (clean_text text) /\
    chunk_at uuid4_hex source 0 c.
Proof.
  intros [Hpos Hle].
  assert (Hsz : chunk_size - chunk_overlap <= chunk_size) by (vm_compute; discriminate).
  exists (make_chunk uuid4_hex source title section init_state
            (clean_text text)).
  split; [|split; [|split]].
  - unfold chunk_text.
    rewrite (chunk_loop_step uuid4_hex (clean_text text) source title
               section fuel init_state _ Hpos
               (first_window _ _ _ _ _ (clean_text_trimmed text)
                  (conj Hpos (Z.le_trans _ _ _ Hle Hsz)))).
    rewrite chunk_loop_done; [reflexivity|exact Hle].
  - reflexivity.
  - cbn [content make_chunk]. symmetry. apply strip_clean_text.
  - split; reflexivity.
Qed.

Lemma short_text_single_chunk_witness :
  0 < len (clean_text abc_text) <= chunk_size - chunk_overlap /\
  exists c,
    chunk_text 1 fixed_uuid abc_text (lit "doc") (lit "Title") (lit "main")
      = Returned [c] /\
    content c = clean_text abc_text /\
    content c = strip (clean_text abc_text) /\
    chunk_at fixed_uuid (lit "doc") 0 c.
Proof.
  split.
  - vm_compute. split; [reflexivity|discriminate].
  - apply (short_text_single_chunk 0 fixed_uuid abc_text).
    vm_compute. split; [reflexivity|discriminate].
Defined.

(** C2, as stated, fails between 851 and 999 characters: the text of 900
    letters is shorter than the chunk size, and [chunk_text] returns two
    chunks for it, the whole text and its last 50 characters again; no
    number of iterations makes it return a single chunk. *)
Lemma short_text_second_chunk :
  0 < len (clean_text text_900) < chunk_size /\
  (exists c1 c2,
     chunk_text 2 fixed_uuid text_900 (lit "doc") (lit "Title") (lit "main")
       = Returned [c1; c2] /\
     content c1 = text_900 /\ content c2 = repeat "a"%char 50) /\
  (forall fuel c,
     chunk_text fuel fixed_uuid text_900 (lit "doc") (lit "Title") (lit "main")
       <> Returned [c]).
Proof.
  split; [vm_compute; split; reflexivity|].
  assert (H2 : exists c1 c2,
             chunk_text 2 fixed_uuid text_900 (lit "doc") (lit "Title")
               (lit "main") = Returned [c1; c2] /\
             content c1 = text_900 /\ content c2 = repeat "a"%char 50).
  { do 2 eexists. vm_compute. repeat split. }
  split; [exact H2|].
  destruct H2 as (c1 & c2 & H2 & _). intros fuel c Hc.
  unfold chunk_text in *.
  destruct (Nat.le_ge_cases fuel 2) as [Hle|Hge].
  - rewrite <- (chunk_loop_more_fuel _ _ _ _ _ fuel 2), H2 in Hc;
      [discriminate| |exact Hle].
    rewrite Hc. discriminate.
  - rewrite (chunk_loop_more_fuel _ _ _ _ _ 2 fuel), H2 in Hc;
      [discriminate| |exact Hge].
    rewrite H2. discriminate.
Qed.

(** *** A text on which the loop does not advance *)

Lemma stuck_text_clean : clean_text stuck_text = stuck_text.
Proof. vm_compute. reflexivity. Qed.

Lemma stuck_text_first_window :
  window_end stuck_text 0 = Some 850 /\
  strip (slice stuck_text 0 850) <> [] /\ next_start 850 = 700.
Proof. vm_compute. repeat split; discriminate. Qed.

Lemma stuck_text_second_window :
  window_end stuck_text 700 = Some 850 /\
  strip (slice stuck_text 700 850) <> [] /\ 700 < len stuck_text.
Proof. vm_compute. repeat split; discriminate. Qed.

(** From a start of 700 the window ends at 850 again, and the next start
    is 700 again. *)
Lemma stuck_text_pass (uuid4_hex : nat -> str) (source title section : str)
    (st : loop_state) :
  st_start st = 700 ->
  exists st',
    loop_body uuid4_hex stuck_text source title section st = Some st' /\
    st_start st' = 700.
Proof.
  intros Hst.
  destruct stuck_text_second_window as (Hw & Hne & _).
  destruct stuck_text_first_window as (_ & _ & Hn).
  rewrite <- Hst in Hw, Hne.
  rewrite (loop_body_emits _ _ _ _ _ _ _ Hw Hne).
  eexists. split; [reflexivity|exact Hn].
Qed.

Lemma stuck_text_loop (uuid4_hex : nat -> str) (source title section : str)
    (fuel : nat) :
  forall st, st_start st = 700 ->
    chunk_loop uuid4_hex stuck_text source title section fuel st = OutOfFuel.
Proof.
  induction fuel as [|fuel IH]; intros st Hst; rewrite chunk_loop_unfold;
    destruct stuck_text_second_window as (_ & _ & Hlt);
    apply Z.ltb_lt in Hlt; rewrite Hst, Hlt; [reflexivity|].
  destruct (stuck_text_pass uuid4_hex source title section st Hst)
    as (st' & -> & Hst').
  apply IH, Hst'.
Qed.

(** C1 at the input of 850 letters, a space and 2000 letters: the first
    window is cut at the space, the second window starts at 700 and is cut
    at the same space, so the start stays at 700 and the loop never ends;
    whatever number of iterations is allowed, [chunk_text] has not
    returned. *)
Theorem chunk_text_stuck (fuel : nat) (uuid4_hex : nat -> str)
    (source title section : str) :
  chunk_text fuel uuid4_hex stuck_text source title section = OutOfFuel.
Proof.
  unfold chunk_text. rewrite stuck_text_clean.
  destruct fuel as [|fuel]; [vm_compute; reflexivity|].
  destruct stuck_text_first_window as (Hw & Hne & Hn).
  assert (H0 : st_start init_state < len stuck_text)
    by (vm_compute; reflexivity).
  rewrite (chunk_loop_step uuid4_hex stuck_text source title section
             fuel init_state _ H0
             (loop_body_emits _ _ _ _ _ init_state _ Hw Hne)).
  apply stuck_text_loop. exact Hn.
Qed.

(** *** A text without whitespace *)

Lemma getitem_in_range {A} (l : list A) (i : Z) :
  0 <= i < len l -> exists x, getitem l i = Some x /\ In x l.
Proof.
  intros [H0 H1]. unfold getitem.
  destruct (i <? 0) eqn:E0; [apply Z.ltb_lt in E0; lia|]. rewrite E0. cbn.
  destruct (len l <=? i) eqn:E1; [apply Z.leb_le in E1; lia|].
  destruct (nth_error l (Z.to_nat i)) as [x|] eqn:E.
  - exists x. split; [reflexivity|]. eapply nth_error_In, E.
  - apply nth_error_None in E. unfold len in H1. lia.
Qed.

Lemma split_no_space (s : str) :
  Forall (fun c => isspace c = false) s -> s <> [] -> split s = [s].
Proof.
  induction 1 as [|c t Hc Ht IH]; intros Hne; [contradiction|].
  simpl. rewrite Hc. destruct t as [|c' t']; [reflexivity|].
  inversion Ht as [|? ? Hc' _]; subst. rewrite Hc'.
  rewrite IH by discriminate. reflexivity.
Qed.

Lemma clean_text_no_space (s : str) :
  Forall (fun c => isspace c = false) s -> clean_text s = s.
Proof.
  intros H. unfold clean_text. destruct s as [|c t]; [reflexivity|].
  rewrite split_no_space by (assumption || discriminate). reflexivity.
Qed.

Section RunOn.
Variable uuid4_hex : nat -> str.
Variables (cleaned source title section : str).
Hypothesis no_space : Forall (fun c => isspace c = false) cleaned.

Lemma walk_back_no_space (start : Z) (dist : nat) :
  0 <= start -> start + Z.of_nat dist < len cleaned ->
  walk_back cleaned start dist = Some start.
Proof.
  intros H0. induction dist as [|d IH]; intros Hlt; [reflexivity|].
  cbn [walk_back].
  destruct (getitem_in_range cleaned (start + Z.of_nat (S d)))
    as (c & -> & Hin); [lia|].
  rewrite Forall_forall in no_space.
  assert (Hc : Ascii.eqb c space = false).
  { apply Ascii.eqb_neq. intros ->. specialize (no_space _ Hin).
    discriminate. }
  rewrite Hc. apply IH. lia.
Qed.

(** Without a space to cut at, every window has the full size. *)
Lemma window_end_no_space (start : Z) :
  0 <= start -> window_end cleaned start = Some (start + chunk_size).
Proof.
  intros H0. unfold window_end.
  destruct (start + chunk_size <? len cleaned) eqn:E; [|reflexivity].
  apply Z.ltb_lt in E.
  rewrite walk_back_no_space; [rewrite Z.eqb_refl; reflexivity|exact H0|].
  replace (start + chunk_size - start) with chunk_size by lia.
  exact E.
Qed.

Lemma loop_body_no_space (st : loop_state) :
  0 <= st_start st ->
  exists st',
    loop_body uuid4_hex cleaned source title section st = Some st' /\
    st_start st' = st_start st + (chunk_size - chunk_overlap).
Proof.
  intros H0. unfold loop_body. rewrite (window_end_no_space _ H0).
  assert (Hn : next_start (st_start st + chunk_size)
               = st_start st + (chunk_size - chunk_overlap)).
  { unfold next_start, chunk_size, chunk_overlap.
    destruct (st_start st + 1000 - 150 <? 0) eqn:E; [|lia].
    apply Z.ltb_lt in E. lia. }
  destruct (truthy _); eexists; (split; [reflexivity|exact Hn]).
Qed.

Lemma chunk_loop_no_space (fuel : nat) :
  forall st,
    0 <= st_start st ->
    len cleaned - st_start st <= (chunk_size - chunk_overlap) * Z.of_nat fuel ->
    exists chunks,
      chunk_loop uuid4_hex cleaned source title section fuel st
      = Returned chunks.
Proof.
  induction fuel as [|fuel IH]; intros st H0 Hm; rewrite chunk_loop_unfold;
    destruct (st_start st <? len cleaned) eqn:E;
    try (eexists; reflexivity); apply Z.ltb_lt in E.
  - lia.
  - destruct (loop_body_no_space st H0) as (st' & -> & Hs).
    apply IH; rewrite Hs; unfold chunk_size, chunk_overlap in *; lia.
Qed.

End RunOn.

(** The run-on token of C1: on a text without any whitespace, however
    long, the start advances by 850 in every pass, and [chunk_text]
    returns within [len(text) // 850 + 1] passes. *)
Lemma run_on_token_terminates (uuid4_hex : nat -> str)
    (text source title section : str) :
  Forall (fun c => isspace c = false) text ->
  exists chunks,
    chunk_text (Z.to_nat (len text / 850) + 1) uuid4_hex text source title
      section = Returned chunks.
Proof.
  intros H. unfold chunk_text. rewrite (clean_text_no_space _ H).
  apply chunk_loop_no_space; [exact H|cbn; lia|].
  cbn [st_start init_state]. unfold chunk_size, chunk_overlap.
  pose proof (len_nonneg text) as Hl.
  pose proof (Z.div_pos (len text) 850 Hl ltac:(lia)) as Hd.
  pose proof (Z.mod_pos_bound (len text) 850 ltac:(lia)) as Hmod.
  pose proof (Z.div_mod (len text) 850 ltac:(lia)) as Hdm.
  rewrite Nat2Z.inj_add, Z2Nat.id by exact Hd. lia.
Qed.

Lemma run_on_token_terminates_example :
  exists chunks,
    chunk_text 3 fixed_uuid (repeat "x"%char 2500) (lit "doc") (lit "Title")
      (lit "main") = Returned chunks /\
    map (fun c => len (content c)) chunks = [1000; 1000; 800].
Proof. eexists. split; vm_compute; reflexivity. Qed.

(** *** Invariants of the chunks returned *)

(** C9: every chunk that [chunk_text] returns, and every chunk that its
    loop holds after any number of passes (also in a run that never
    returns), has a content that is not empty, also after trimming; and a
    pass whose slice strips to the empty string leaves the list of chunks
    as it was. *)
Theorem chunks_never_empty (uuid4_hex : nat -> str)
    (text source title section : str) :
  (forall fuel chunks,
     chunk_text fuel uuid4_hex text source title section = Returned chunks ->
     Forall chunk_nonempty chunks) /\
  (forall n st,
     reachable_in uuid4_hex (clean_text text) source title section n st ->
     Forall chunk_nonempty (st_chunks st)) /\
  (forall st end_,
     window_end (clean_text text) (st_start st) = Some end_ ->
     strip (slice (clean_text text) (st_start st) end_) = [] ->
     exists st',
       loop_body uuid4_hex (clean_text text) source title section st
         = Some st' /\
       st_chunks st' = st_chunks st).
Proof.
  split; [|split].
  - intros fuel chunks Hr.
    apply (chunk_loop_nonempty uuid4_hex (clean_text text) source title
             section fuel init_state chunks);
      [constructor|exact Hr].
  - intros n st. apply reachable_nonempty.
  - intros st end_ Hw He. eexists. split.
    + apply loop_body_skips; eassumption.
    + reflexivity.
Qed.

Lemma chunks_never_empty_witness :
  chunk_text 1 fixed_uuid abc_text (lit "doc") (lit "Title") (lit "main")
    = Returned [abc_chunk] /\
  Forall chunk_nonempty [abc_chunk].
Proof.
  split; [reflexivity|].
  apply (chunks_never_empty fixed_uuid abc_text (lit "doc") (lit "Title")
           (lit "main")) with (fuel := 1%nat).
  reflexivity.
Defined.

(** C10: the [k]-th chunk (counting from 0) that [chunk_text] returns,
    or that its loop holds after any number of passes, has position [k]
    in its metadata, and its id is the source name, then [k], then the
    first eight characters of the [k]-th uuid, joined by underscores; with
    other uuids the metadata and the contents are the same. *)
Theorem chunk_positions_consecutive (uuid4_hex : nat -> str)
    (text source title section : str) :
  (forall fuel chunks,
     chunk_text fuel uuid4_hex text source title section = Returned chunks ->
     forall k c, nth_error chunks k = Some c ->
                 chunk_at uuid4_hex source k c) /\
  (forall n st,
     reachable_in uuid4_hex (clean_text text) source title section n st ->
     forall k c, nth_error (st_chunks st) k = Some c ->
                 chunk_at uuid4_hex source k c) /\
  (forall fuel uuid4_hex' chunks chunks',
     chunk_text fuel uuid4_hex text source title section = Returned chunks ->
     chunk_text fuel uuid4_hex' text source title section = Returned chunks' ->
     map metadata chunks' = map metadata chunks /\
     map content chunks' = map content chunks).
Proof.
  split; [|split].
  - intros fuel chunks Hr.
    apply (chunk_loop_numbered uuid4_hex (clean_text text) source title
             section fuel init_state chunks);
      [apply numbered_init|exact Hr].
  - intros n st Hreach. apply (reachable_numbered _ _ _ _ _ _ _ Hreach).
  - intros fuel u' chunks chunks' Hr Hr'.
    destruct (chunk_loop_same_shape u' uuid4_hex (clean_text text) source
                title section fuel init_state init_state chunks' chunks)
      as [Hc Hm]; try assumption.
    + repeat split.
    + split; assumption.
Qed.

Lemma chunk_positions_consecutive_witness :
  chunk_text 1 fixed_uuid abc_text (lit "doc") (lit "Title") (lit "main")
    = Returned [abc_chunk] /\
  chunk_at fixed_uuid (lit "doc") 0 abc_chunk.
Proof.
  split; [reflexivity|].
  apply (chunk_positions_consecutive fixed_uuid abc_text (lit "doc")
           (lit "Title") (lit "main")) with (fuel := 1%nat) (chunks := [abc_chunk]);
    reflexivity.
Defined.

End ChunkingFacts.

(** ** services/llm.py: citations *)

Module CitationFacts.
Import Py Schemas LLM Exact.

Section WithFloat.
Context `{PyFloat}.

Local Abbreviation by_index :=
  (fun a b : Citation => cit_index a <= cit_index b).

Lemma insert_citation_perm (c : Citation) (l : list Citation) :
  Permutation (insert_citation c l) (c :: l).
Proof.
  induction l as [|d l IH]; simpl; [reflexivity|].
  destruct (cit_index c <=? cit_index d); [reflexivity|].
  rewrite IH. apply perm_swap.
Qed.

Lemma sort_citations_perm (l : list Citation) :
  Permutation (sort_citations l) l.
Proof.
  induction l as [|c l IH]; simpl; [reflexivity|].
  rewrite insert_citation_perm. apply perm_skip, IH.
Qed.

Lemma insert_citation_sorted (c : Citation) (l : list Citation) :
  StronglySorted by_index l -> StronglySorted by_index (insert_citation c l).
Proof.
  induction 1 as [|d l Hl IH Hd]; simpl.
  - repeat constructor.
  - destruct (cit_index c <=? cit_index d) eqn:E.
    + apply Z.leb_le in E. constructor; [constructor; assumption|].
      constructor; [exact E|].
      eapply Forall_impl; [|exact Hd]. cbn. intros; lia.
    + apply Z.leb_gt in E. constructor; [exact IH|].
      eapply Permutation_Forall; [symmetry; apply insert_citation_perm|].
      constructor; [lia|exact Hd].
Qed.

Lemma sort_citations_sorted (l : list Citation) :
  StronglySorted by_index (sort_citations l).
Proof.
  induction l; simpl; [constructor|]. apply insert_citation_sorted; assumption.
Qed.

(** Two sorted arrangements of the same citations are the same list,
    when citations with the same index are equal. *)
Lemma sorted_perm_unique (l1 : list Citation) :
  forall l2,
    StronglySorted by_index l1 -> StronglySorted by_index l2 ->
    Permutation l1 l2 ->
    (forall a b, In a l1 -> In b l1 -> cit_index a = cit_index b -> a = b) ->
    l1 = l2.
Proof.
  induction l1 as [|a l1 IH]; intros l2 S1 S2 P Hinj.
  - apply Permutation_nil in P. subst. reflexivity.
  - destruct l2 as [|b l2];
      [symmetry in P; apply Permutation_nil in P; discriminate|].
    inversion S1 as [|? ? S1' F1]; inversion S2 as [|? ? S2' F2]; subst.
    assert (Hab : a = b).
    { assert (Ha : In a (b :: l2)) by (eapply Permutation_in; [exact P|left; reflexivity]).
      assert (Hb : In b (a :: l1))
        by (eapply Permutation_in; [symmetry; exact P|left; reflexivity]).
      apply Hinj; [left; reflexivity|exact Hb|].
      rewrite Forall_forall in F1, F2.
      destruct Ha as [->|Ha]; [reflexivity|].
      destruct Hb as [->|Hb]; [reflexivity|].
      specialize (F1 _ Hb). specialize (F2 _ Ha). cbn in F1, F2. lia. }
    subst b. f_equal. apply IH; try assumption.
    + eapply Permutation_cons_inv; exact P.
    + intros x y Hx Hy. apply Hinj; right; assumption.
Qed.

Lemma filter_map_perm {A B} (f : A -> option B) (l l' : list A) :
  Permutation l l' -> Permutation (filter_map f l) (filter_map f l').
Proof.
  induction 1 as [|x l l' _ IH|x y l|l l' l'' _ IH1 _ IH2]; simpl.
  - reflexivity.
  - destruct (f x); [apply perm_skip|]; exact IH.
  - destruct (f x), (f y); try reflexivity. apply perm_swap.
  - etransitivity; eassumption.
Qed.

Lemma in_filter_map {A B} (f : A -> option B) (l : list A) (b : B) :
  In b (filter_map f l) <-> exists a, In a l /\ f a = Some b.
Proof.
  induction l as [|x l IH]; simpl.
  - split; [contradiction|intros (a & [] & _)].
  - destruct (f x) as [y|] eqn:E; simpl; rewrite IH; split.
    + intros [<-|(a & Ha & Hf)]; [exists x; auto|exists a; auto].
    + intros (a & [<-|Ha] & Hf); [left; congruence|right; exists a; auto].
    + intros (a & Ha & Hf). exists a; auto.
    + intros (a & [<-|Ha] & Hf); [congruence|exists a; auto].
Qed.

(** What one marker contributes. *)
Lemma citation_of_spec (docs : list SourceDocument) (s : str) (c : Citation) :
  citation_of docs s = Some c ->
  1 <= cit_index c <= len docs /\
  cit_index c = int_of_digits s /\
  exists doc,
    getitem docs (cit_index c - 1) = Some doc /\
    c = mkCitation (cit_index c) (doc_source doc) (doc_title doc)
          (content_snippet doc).
Proof.
  unfold citation_of.
  destruct ((1 <=? int_of_digits s) && (int_of_digits s <=? len docs)) eqn:E;
    [|discriminate].
  apply andb_true_iff in E. destruct E as [E1 E2].
  apply Z.leb_le in E1, E2.
  destruct (getitem docs (int_of_digits s - 1)) as [doc|] eqn:G;
    [|discriminate].
  intros [= <-]. cbn. repeat split; try assumption.
  exists doc. split; [exact G|reflexivity].
Qed.

Lemma citation_of_same_index (docs : list SourceDocument) (s s' : str)
    (a b : Citation) :
  citation_of docs s = Some a -> citation_of docs s' = Some b ->
  cit_index a = cit_index b -> a = b.
Proof.
  intros Ha Hb E.
  destruct (citation_of_spec _ _ _ Ha) as (_ & _ & da & Ga & ->).
  destruct (citation_of_spec _ _ _ Hb) as (_ & _ & db & Gb & ->).
  cbn in E. rewrite E in Ga. rewrite Ga in Gb. injection Gb as <-.
  rewrite E. reflexivity.
Qed.

(** The order in which the loop visits the set does not show in the
    result. *)
Lemma extract_citations_any_order (set_order : list str -> list str)
    (answer_text : str) (docs : list SourceDocument) :
  Permutation (set_order (findall answer_text))
              (nodup str_eq_dec (findall answer_text)) ->
  extract_citations_in_order set_order answer_text docs
  = extract_citations answer_text docs.
Proof.
  intros P. unfold extract_citations, extract_citations_in_order.
  apply sorted_perm_unique; try apply sort_citations_sorted.
  - rewrite !sort_citations_perm. apply filter_map_perm, P.
  - intros a b Ha Hb.
    apply (Permutation_in _ (sort_citations_perm _)) in Ha, Hb.
    apply in_filter_map in Ha, Hb.
    destruct Ha as (sa & _ & Ha), Hb as (sb & _ & Hb).
    eapply citation_of_same_index; eassumption.
Qed.

(** The part of C4 that holds: every citation has an index in
    [1..len(context_documents)] that was written as a marker in the
    answer, and the citations are sorted by index. *)
Lemma extract_citations_in_range (answer_text : str)
    (docs : list SourceDocument) :
  Forall (fun c => 1 <= cit_index c <= len docs /\
                   exists s, In s (findall answer_text) /\
                             cit_index c = int_of_digits s)
         (extract_citations answer_text docs)
  /\ StronglySorted by_index (extract_citations answer_text docs).
Proof.
  split; [|apply sort_citations_sorted].
  apply Forall_forall. intros c Hc.
  apply (Permutation_in _ (sort_citations_perm _)) in Hc.
  apply in_filter_map in Hc. destruct Hc as (s & Hs & Hc).
  apply nodup_In in Hs.
  destruct (citation_of_spec _ _ _ Hc) as (Hr & Hi & _).
  split; [exact Hr|]. exists s. auto.
Qed.

End WithFloat.

(** The example of the specification: two markers [[2]] and one marker
    [[9]] with three documents give one citation, for the second
    document. *)
Lemma extract_citations_example :
  @extract_citations exact_float (lit "... [2] ... [2] ... [9]") three_docs
  = [mkCitation 2 (lit "notes.txt") (lit "Notes") (lit "beta")].
Proof. reflexivity. Qed.

(** C4 at the answer [See [2] and [02].] with three documents: the set
    holds the two strings [2] and [02], both read as the integer 2, and
    the result has two citations with index 2. *)
Theorem citations_repeat_index :
  @extract_citations exact_float (lit "See [2] and [02].") three_docs
  = [mkCitation 2 (lit "notes.txt") (lit "Notes") (lit "beta");
     mkCitation 2 (lit "notes.txt") (lit "Notes") (lit "beta")].
Proof. reflexivity. Qed.

End CitationFacts.

(** ** The exact instance satisfies the order facts *)

Module ExactFacts.
Import Exact.

Lemma round_half_even_monotone (x y : Q) (n : Z) :
  (x <= y)%Q -> (round_half_even x n <= round_half_even y n)%Q.
Proof.
  intros Hxy. unfold round_half_even.
  set (s := Z.to_pos (10 ^ n)).
  set (x' := (x * (Z.pos s # 1))%Q). set (y' := (y * (Z.pos s # 1))%Q).
  assert (Hle : (x' <= y')%Q).
  { unfold x', y'. apply Qmult_le_compat_r; [exact Hxy|].
    unfold Qle; simpl; lia. }
  pose proof (Qfloor_resp_le _ _ Hle) as Hf.
  pose proof (Qfloor_le x') as Hx1. pose proof (Qlt_floor x') as Hx2.
  pose proof (Qfloor_le y') as Hy1. pose proof (Qlt_floor y') as Hy2.
  set (fx := Qfloor x') in *. set (fy := Qfloor y') in *.
  rewrite !Qred_correct.
  assert (Hk : forall k1 k2 : Z, k1 <= k2 -> (k1 # s <= k2 # s)%Q).
  { intros k1 k2 Hk. unfold Qle; simpl. nia. }
  apply Hk.
  destruct (Z.eq_dec fx fy) as [E|NE].
  - rewrite <- E in *. change (fx # 1) with (inject_Z fx).
    destruct (Qcompare_spec (x' - inject_Z fx) (1 # 2)) as [Ex|Lx|Gx];
      destruct (Qcompare_spec (y' - inject_Z fx) (1 # 2)) as [Ey|Ly|Gy];
      try (destruct (Z.even fx)); try lia; exfalso; lra.
  - assert (fx + 1 <= fy) by lia.
    destruct (x' - (fx # 1) ?= 1 # 2)%Q; destruct (y' - (fy # 1) ?= 1 # 2)%Q;
      try (destruct (Z.even fx)); try (destruct (Z.even fy)); lia.
Qed.

Lemma exact_scales (c : Q) :
  (0 <= c)%Q -> @scales_monotonically exact_float (Qred c).
Proof.
  intros Hc x y Hx Hxy.
  change (Qred 0 <= x)%Q in Hx. change (x <= y)%Q in Hxy.
  change ((Qred 0 <= Qred (x * Qred c))%Q
          /\ (Qred (x * Qred c) <= Qred (y * Qred c))%Q).
  rewrite Qred_correct in Hx. rewrite !Qred_correct. split.
  - apply Qmult_le_0_compat; assumption.
  - apply Qmult_le_compat_r; assumption.
Qed.

Lemma exact_float_order : @PyFloatOrder exact_float.
Proof.
  constructor.
  - intros x _. apply Qle_refl.
  - intros a b d [Ha Hab] Hd.
    change ((Qred 0 <= Qred (a # Z.to_pos d))%Q
            /\ (Qred (a # Z.to_pos d) <= Qred (b # Z.to_pos d))%Q).
    rewrite !Qred_correct. unfold Qle; simpl. split; nia.
  - apply exact_scales. unfold Qle; simpl; lia.
  - apply exact_scales. unfold Qle; simpl; lia.
  - intros a x y _ _ Hxy.
    change (Qred (a + x) <= Qred (a + y))%Q. change (x <= y)%Q in Hxy.
    rewrite !Qred_correct.
    apply Qplus_le_r. exact Hxy.
  - intros x y. apply round_half_even_monotone.
Qed.

End ExactFacts.

(** ** services/llm.py: token usage, cost and [generate_answer] *)

Module LLMFacts.
Import Py Eff Schemas Services LLM Exact ExactFacts.

Section WithFloat.
Context `{PyFloat}.

Lemma unreadable_answer_no_markers : findall unreadable_answer = [].
Proof. reflexivity. Qed.

Lemma unreadable_answer_no_citations (docs : list SourceDocument) :
  extract_citations unreadable_answer docs = [].
Proof.
  unfold extract_citations, extract_citations_in_order.
  rewrite unreadable_answer_no_markers. reflexivity.
Qed.

(** C8: the token counts are the floors of a quarter of the lengths, the
    cost is the rounded sum of the two counts scaled by their rates, and
    a completion of twice the length does not cost less. *)
Theorem estimate_cost_monotone `{!PyFloatOrder}
    (prompt response response' : str) :
  let usage := estimate_token_usage prompt response in
  (prompt_tokens usage = len prompt / 4 /\
   completion_tokens usage = len response / 4 /\
   total_tokens usage = len prompt / 4 + len response / 4) /\
  estimate_cost usage =
    fround (fadd (fmul (int_truediv (len prompt / 4) 1000)
                       (flit (75 # 1000000)))
                 (fmul (int_truediv (len response / 4) 1000)
                       (flit (3 # 10000)))) 6 /\
  (len response' = 2 * len response ->
   fle (estimate_cost usage)
       (estimate_cost (estimate_token_usage prompt response'))).
Proof.
  cbn zeta. split; [repeat split|split; [reflexivity|]].
  intros Hlen. unfold estimate_cost, estimate_token_usage.
  cbn [prompt_tokens completion_tokens].
  pose proof (PyFacts.len_nonneg prompt) as Hp.
  pose proof (PyFacts.len_nonneg response) as Hr.
  assert (Hc : 0 <= len response / 4 <= len response' / 4).
  { split; [apply Z.div_pos; lia|].
    apply Z.div_le_mono; lia. }
  assert (Hpt : 0 <= len prompt / 4 <= len prompt / 4)
    by (split; [apply Z.div_pos; lia|lia]).
  destruct (int_truediv_monotone _ _ 1000 Hpt ltac:(lia)) as [Hp0 Hp1].
  destruct (int_truediv_monotone _ _ 1000 Hc ltac:(lia)) as [Hc0 Hc1].
  destruct (scale_input_rate _ _ Hp0 Hp1) as [Hin _].
  destruct (scale_output_rate _ _ Hc0 Hc1) as [Hout0 Hout1].
  apply fround_monotone, fadd_monotone; assumption.
Qed.

Variable sv : services.

(** C7, as amended: with a non-empty context [generate_answer] always
    returns a response.  When the model is missing or the model call
    raises, the response is the degraded one: the apology for an error, no
    citations, generation time 0.0, no token usage and no cost.  When the
    call returns a response whose text cannot be read, the answer is the
    apology for an improper response and there are no citations, but the
    generation time is the time measured around the call, and token usage
    and cost are estimated as for any answer. *)
Theorem generate_answer_recovers (query : str)
    (docs : list SourceDocument) (w : world) :
  docs <> [] ->
  let prompt := build_prompt query (build_context 1 docs) in
  let entered := trace w ++ [EvEnterGenerateAnswer] in
  let measured := fsub (now sv (S (clock w))) (now sv (clock w)) in
  let called := mkWorld (S (S (clock w))) (entered ++ [EvGenerate prompt]) in
  match model sv with
  | None =>
      generate_answer sv query docs w
      = (inr (mkLLMResponse error_answer [] (flit 0) None None),
         mkWorld (clock w) (entered ++ [EvLogError]))
  | Some generate_content =>
      match generate_content prompt with
      | inl _ =>
          generate_answer sv query docs w
          = (inr (mkLLMResponse error_answer [] (flit 0) None None),
             mkWorld (S (clock w))
               ((entered ++ [EvGenerate prompt]) ++ [EvLogError]))
      | inr response =>
          match response_text response with
          | inl _ =>
              generate_answer sv query docs w
              = (inr (mkLLMResponse unreadable_answer [] measured
                        (Some (estimate_token_usage prompt unreadable_answer))
                        (Some (estimate_cost
                                 (estimate_token_usage prompt
                                    unreadable_answer)))),
                 called)
          | inr text =>
              generate_answer sv query docs w
              = (inr (mkLLMResponse text (extract_citations text docs)
                        measured
                        (Some (estimate_token_usage prompt text))
                        (Some (estimate_cost
                                 (estimate_token_usage prompt text)))),
                 called)
          end
      end
  end.
Proof.
  intros Hne. destruct docs as [|d ds]; [contradiction|].
  cbn zeta. unfold generate_answer, bind, try_except, emit, call, time_time,
    log_error, ret, raise.
  destruct (model sv) as [generate_content|]; [|reflexivity].
  cbn [truthy negb clock trace].
  destruct (generate_content _) as [e|response]; [reflexivity|].
  destruct (response_text response) as [e|text]; [|reflexivity].
  rewrite unreadable_answer_no_citations. reflexivity.
Qed.

End WithFloat.

Lemma estimate_cost_monotone_witness :
  len (lit "a cited answer, twice repeated: a cited answer, twice repeated: ")
  = 2 * len (lit "a cited answer, twice repeated: ") /\
  @fle exact_float
    (estimate_cost
       (estimate_token_usage (lit "the prompt")
          (lit "a cited answer, twice repeated: ")))
    (estimate_cost
       (estimate_token_usage (lit "the prompt")
          (lit "a cited answer, twice repeated: a cited answer, twice repeated: "))).
Proof.
  split; [reflexivity|].
  apply (@estimate_cost_monotone exact_float exact_float_order
           (lit "the prompt") (lit "a cited answer, twice repeated: ")).
  reflexivity.
Defined.

Lemma generate_answer_recovers_witness :
  three_docs <> [] /\
  exists r w',
    generate_answer (sample_services [] false) (lit "q") three_docs w0
      = (inr r, w') /\
    llm_answer r = unreadable_answer /\ llm_citations r = [].
Proof.
  split; [discriminate|].
  do 2 eexists. split.
  - apply (@generate_answer_recovers exact_float (sample_services [] false)
             (lit "q") three_docs w0).
    discriminate.
  - split; reflexivity.
Defined.

(** C7, as stated, fails when the model call returns a response without
    readable text: the answer is an apology and there are no citations,
    but the generation time is the second measured around the call, not
    zero. *)
Lemma unreadable_response_keeps_time :
  three_docs <> [] /\
  exists r w',
    generate_answer (sample_services [] false) (lit "q") three_docs w0
      = (inr r, w') /\
    llm_answer r = unreadable_answer /\
    llm_citations r = [] /\
    llm_generation_time r = 1%Q /\
    ~ (llm_generation_time r == 0)%Q.
Proof.
  split; [discriminate|].
  do 2 eexists. split; [vm_compute; reflexivity|].
  repeat split. intros E. vm_compute in E. discriminate.
Qed.

End LLMFacts.

(** ** Effects *)

Module EffFacts.
Import Py Eff Services Spec.

Section Silent.
Variable p : event -> bool.

Lemma silent_ret {A} (a : A) : silent p (ret a).
Proof. intros w r w' [= <- <-]. reflexivity. Qed.

Lemma silent_raise {A} (e : exn) : silent p (@raise A e).
Proof. intros w r w' [= <- <-]. reflexivity. Qed.

Lemma silent_bind {A B} (m : M A) (k : A -> M B) :
  silent p m -> (forall a, silent p (k a)) -> silent p (bind m k).
Proof.
  intros Hm Hk w r w'. unfold bind.
  destruct (m w) as [[e|a] w1] eqn:E.
  - intros [= <- <-]. eapply Hm, E.
  - intros Hka. rewrite (Hk a _ _ _ Hka). eapply Hm, E.
Qed.

Lemma silent_try_except {A} (m : M A) (h : exn -> M A) :
  silent p m -> (forall e, silent p (h e)) -> silent p (try_except m h).
Proof.
  intros Hm Hh w r w'. unfold try_except.
  destruct (m w) as [[e|a] w1] eqn:E.
  - intros Hhe. rewrite (Hh e _ _ _ Hhe). eapply Hm, E.
  - intros [= <- <-]. eapply Hm, E.
Qed.

Lemma silent_attempt {A} (m : M A) : silent p m -> silent p (attempt m).
Proof.
  intros Hm w r w'. unfold attempt.
  destruct (m w) as [r1 w1] eqn:E. intros [= <- <-]. eapply Hm, E.
Qed.

Lemma silent_emit (ev : event) : p ev = false -> silent p (emit ev).
Proof.
  intros Hp w r w' [= <- <-]. cbn. rewrite filter_app. cbn.
  rewrite Hp. apply app_nil_r.
Qed.

Lemma silent_call {A} (ev : event) (answer : exn + A) :
  p ev = false -> silent p (call ev answer).
Proof.
  intros Hp w r w' [= <- <-]. cbn. rewrite filter_app. cbn.
  rewrite Hp. apply app_nil_r.
Qed.

Lemma silent_time_time `{PyFloat} (sv : services) :
  silent p (time_time sv).
Proof. intros w r w' [= <- <-]. reflexivity. Qed.

End Silent.

Ltac silence :=
  repeat first
    [ apply silent_ret
    | apply silent_raise
    | apply silent_time_time
    | apply silent_emit; reflexivity
    | apply silent_call; reflexivity
    | apply silent_attempt
    | apply silent_bind; [|intros ?]
    | apply silent_try_except; [|intros ?]
    | match goal with
      | |- silent _ (match ?x with _ => _ end) => destruct x
      end ].

End EffFacts.

(** ** services/retrieval.py *)

Module RetrievalFacts.
Import Py Eff Schemas Services Stores Retrieval Exact Spec PyFacts EffFacts.

Section WithFloat.
Context `{PyFloat}.
Variable sv : services.

Lemma to_source_document_unscored (hits : list index_match) :
  Forall (fun d => doc_rerank_score d = None) (map to_source_document hits).
Proof. apply Forall_map, Forall_forall. reflexivity. Qed.

(** Retrieval never enters the answer synthesizer nor calls the model. *)
Lemma retrieve_and_rerank_no_generation (query : str)
    (top_k rerank_top_k : Z) :
  silent is_generation (retrieve_and_rerank sv query top_k rerank_top_k).
Proof.
  unfold retrieve_and_rerank, generate_query_embedding, query_similar,
    rerank_documents, log_error.
  silence.
Qed.

(** C5: when the index answers the query with no match,
    [retrieve_and_rerank] returns a result with no documents, the time
    measured around embedding and search as retrieval time, and 0.0 as
    rerank time; the only calls made are the embedding and the index
    query, so the reranker is not called and nothing is raised. *)
Theorem empty_index_short_circuits (query : str) (top_k rerank_top_k : Z)
    (w : world) (query_embedding : list float)
    (index_query : list float -> Z -> exn + list index_match) :
  embed_content sv (embedding_clean_text query) (lit "retrieval_query")
    = inr query_embedding ->
  index sv = Some index_query ->
  index_query query_embedding top_k = inr [] ->
  retrieve_and_rerank sv query top_k rerank_top_k w
  = (inr (mkRetrievalResult []
            (fsub (now sv (S (clock w))) (now sv (clock w)))
            (flit 0)),
     mkWorld (S (S (clock w)))
       ((trace w
         ++ [EvEmbed (embedding_clean_text query) (lit "retrieval_query")])
        ++ [EvIndexQuery top_k]))
  /\ forall r w',
       retrieve_and_rerank sv query top_k rerank_top_k w = (r, w') ->
       filter is_rerank (trace w') = filter is_rerank (trace w).
Proof.
  intros He Hi Hq.
  assert (Hrun : retrieve_and_rerank sv query top_k rerank_top_k w
    = (inr (mkRetrievalResult []
              (fsub (now sv (S (clock w))) (now sv (clock w)))
              (flit 0)),
       mkWorld (S (S (clock w)))
         ((trace w
           ++ [EvEmbed (embedding_clean_text query) (lit "retrieval_query")])
          ++ [EvIndexQuery top_k]))).
  { unfold retrieve_and_rerank, generate_query_embedding, query_similar,
      bind, try_except, call, time_time, ret.
    cbn [clock trace]. rewrite He. rewrite Hi. cbn [clock trace].
    rewrite Hq. reflexivity. }
  split; [exact Hrun|].
  intros r w'. rewrite Hrun. intros [= <- <-]. cbn [trace].
  rewrite !filter_app. cbn. rewrite !app_nil_r. reflexivity.
Qed.

(** C3: with a reranker configured and more than one candidate, when the
    reranker call raises, [retrieve_and_rerank] returns
    [documents[:rerank_top_k]] of the candidates in the order of the index,
    that is their first [rerank_top_k] when [rerank_top_k] is not
    negative; none of them carries a rerank score, and the failure only
    leaves a line in the log. *)
Theorem rerank_failure_falls_back (query : str) (top_k rerank_top_k : Z)
    (w : world) (query_embedding : list float)
    (index_query : list float -> Z -> exn + list index_match)
    (hits : list index_match)
    (rerank : str -> list str -> Z -> exn + list rerank_hit) (e : exn) :
  let documents := map to_source_document hits in
  let doc_texts := map doc_content documents in
  embed_content sv (embedding_clean_text query) (lit "retrieval_query")
    = inr query_embedding ->
  index sv = Some index_query ->
  index_query query_embedding top_k = inr hits ->
  1 < len hits ->
  cohere_client sv = Some rerank ->
  rerank query doc_texts rerank_top_k = inl e ->
  retrieve_and_rerank sv query top_k rerank_top_k w
  = (inr (mkRetrievalResult (slice_to documents rerank_top_k)
            (fsub (now sv (S (clock w))) (now sv (clock w)))
            (fsub (now sv (S (S (S (clock w)))))
                  (now sv (S (S (clock w)))))),
     mkWorld (S (S (S (S (clock w)))))
       ((((trace w
           ++ [EvEmbed (embedding_clean_text query) (lit "retrieval_query")])
          ++ [EvIndexQuery top_k])
         ++ [EvRerank query doc_texts rerank_top_k])
        ++ [EvLogError]))
  /\ Forall (fun d => doc_rerank_score d = None)
            (slice_to documents rerank_top_k)
  /\ (0 <= rerank_top_k ->
      slice_to documents rerank_top_k
      = firstn (Z.to_nat rerank_top_k) documents).
Proof.
  intros documents doc_texts He Hi Hq Hlen Hc Hr.
  split; [|split].
  - unfold retrieve_and_rerank, generate_query_embedding, query_similar,
      bind, try_except, call, time_time, ret.
    cbn [clock trace]. rewrite He. rewrite Hi. cbn [clock trace].
    rewrite Hq.
    destruct hits as [|h hits']; [cbn in Hlen; lia|].
    cbn [truthy negb]. rewrite Hc.
    fold documents.
    assert (Hl : (1 <? len documents) = true).
    { apply Z.ltb_lt. unfold documents, len in *.
      rewrite length_map. exact Hlen. }
    rewrite Hl.
    unfold rerank_documents, bind, attempt, call, log_error, emit, ret.
    fold doc_texts. rewrite Hr. reflexivity.
  - apply Forall_slice, to_source_document_unscored.
  - apply slice_to_firstn.
Qed.

End WithFloat.

Lemma empty_index_short_circuits_witness :
  (embed_content (sample_services [] true) (embedding_clean_text (lit "q"))
     (lit "retrieval_query") = inr [1 # 1; 0 # 1]
   /\ exists index_query,
       index (sample_services [] true) = Some index_query
       /\ index_query [1 # 1; 0 # 1] 10 = inr [])
  /\ retrieve_and_rerank (sample_services [] true) (lit "q") 10 5 w0
     = (inr (@mkRetrievalResult exact_float [] 1%Q 0%Q),
        mkWorld 2 [EvEmbed (lit "q") (lit "retrieval_query"); EvIndexQuery 10]).
Proof.
  split.
  - split; [reflexivity|]. eexists. split; reflexivity.
  - apply (@empty_index_short_circuits exact_float (sample_services [] true)
             (lit "q") 10 5 w0 [1 # 1; 0 # 1] (fun _ _ => inr []));
      reflexivity.
Defined.

Lemma rerank_failure_falls_back_witness :
  1 < len [hit "a"; hit "b"; hit "c"]
  /\ retrieve_and_rerank (sample_services [hit "a"; hit "b"; hit "c"] true)
       (lit "q") 10 2 w0
     = (inr (@mkRetrievalResult exact_float
               (map (to_source_document (H := exact_float))
                    [hit "a"; hit "b"])
               1%Q 1%Q),
        mkWorld 4
          [EvEmbed (lit "q") (lit "retrieval_query"); EvIndexQuery 10;
           EvRerank (lit "q") [lit "text"; lit "text"; lit "text"] 2;
           EvLogError]).
Proof.
  split; [reflexivity|].
  apply (@rerank_failure_falls_back exact_float
           (sample_services [hit "a"; hit "b"; hit "c"] true)
           (lit "q") 10 2 w0 [1 # 1; 0 # 1]
           (fun _ _ => inr [hit "a"; hit "b"; hit "c"])
           [hit "a"; hit "b"; hit "c"]
           (fun _ _ _ => inl (ServiceError 503)) (ServiceError 503));
    reflexivity.
Defined.

End RetrievalFacts.

(** ** routes.py *)

Module RoutesFacts.
Import Py Eff Schemas Services LLM Retrieval Routes Exact Spec.
Import EffFacts RetrievalFacts.

Section WithFloat.
Context `{PyFloat}.
Variable sv : services.

(** [generate_answer] returns a response, whatever happens inside. *)
Lemma generate_answer_returns (query : str) (docs : list SourceDocument)
    (w : world) :
  exists llm w', generate_answer sv query docs w = (inr llm, w').
Proof.
  unfold generate_answer, bind, try_except, emit, call, time_time,
    log_error, ret, raise.
  destruct (model sv) as [generate_content|]; [|do 2 eexists; reflexivity].
  destruct docs as [|d ds]; cbn [truthy negb clock trace];
    [do 2 eexists; reflexivity|].
  destruct (generate_content _) as [e|response];
    do 2 eexists; reflexivity.
Qed.

(** C6: after a retrieval that returned no document, [query_documents]
    answers with the fixed message, no citations, no sources, 0.0 as model
    time and retrieval time plus rerank time as total time, and the world
    is the one that the retrieval left: the answer synthesizer was not
    entered and the model was not called.  After a retrieval that returned
    documents, the response is built from the answer of [generate_answer],
    with retrieval time plus rerank time plus generation time as total
    time. *)
Theorem query_documents_total_time (request : QueryRequest)
    (w w1 : world) (r : RetrievalResult) :
  retrieve_and_rerank sv (req_query request) (req_top_k request)
    (req_rerank_top_k request) w = (inr r, w1) ->
  match rr_documents r with
  | [] =>
      query_documents sv request w
      = (inr (mkQueryResponse no_results_answer [] []
                (rr_retrieval_time r) (rr_rerank_time r) (flit 0)
                (fadd (rr_retrieval_time r) (rr_rerank_time r))
                None None),
         w1)
      /\ filter is_generation (trace w1) = filter is_generation (trace w)
  | _ :: _ =>
      exists llm w2,
        generate_answer sv (req_query request) (rr_documents r) w1
          = (inr llm, w2) /\
        query_documents sv request w = (inr (build_response r llm), w2) /\
        qr_llm_time (build_response r llm) = llm_generation_time llm /\
        qr_total_time (build_response r llm)
          = fadd (fadd (rr_retrieval_time r) (rr_rerank_time r))
                 (llm_generation_time llm)
  end.
Proof.
  intros Hr. unfold query_documents, bind, try_except. rewrite Hr.
  destruct (rr_documents r) as [|d ds] eqn:Hd; cbn [truthy negb].
  - split; [reflexivity|].
    eapply retrieve_and_rerank_no_generation, Hr.
  - destruct (generate_answer_returns (req_query request) (d :: ds) w1)
      as (llm & w2 & Hg).
    exists llm, w2. rewrite Hg. repeat split.
Qed.

End WithFloat.

Lemma query_documents_total_time_witness :
  retrieve_and_rerank (sample_services [] false) (lit "q") 10 5 w0
  = (inr (@mkRetrievalResult exact_float [] 1%Q 0%Q),
     mkWorld 2 [EvEmbed (lit "q") (lit "retrieval_query"); EvIndexQuery 10])
  /\ query_documents (sample_services [] false)
       (mkQueryRequest (lit "q") 10 5) w0
     = (inr (@mkQueryResponse exact_float no_results_answer [] []
               1%Q 0%Q 0%Q 1%Q None None),
        mkWorld 2 [EvEmbed (lit "q") (lit "retrieval_query"); EvIndexQuery 10]).
Proof.
  split; [reflexivity|].
  apply (@query_documents_total_time exact_float (sample_services [] false)
           (mkQueryRequest (lit "q") 10 5) w0
           (mkWorld 2 [EvEmbed (lit "q") (lit "retrieval_query");
                       EvIndexQuery 10])
           (@mkRetrievalResult exact_float [] 1%Q 0%Q)).
  reflexivity.
Defined.

End RoutesFacts.

(** ** services/chunking.py: further properties *)

Module ChunkingMore.
Import Py Chunking Spec SpecMore PyFacts ChunkingFacts.

Lemma walk_back_spec (cleaned : str) (start : Z) (dist : nat) :
  0 <= start -> start + Z.of_nat dist < len cleaned ->
  exists e,
    walk_back cleaned start dist = Some e /\
    start <= e <= start + Z.of_nat dist /\
    (start < e -> getitem cleaned e = Some space) /\
    (forall j, e < j <= start + Z.of_nat dist ->
               getitem cleaned j <> Some space).
Proof.
  intros H0. induction dist as [|d IH]; intros Hlt.
  - exists start. cbn [walk_back Z.of_nat].
    split; [reflexivity|]. split; [lia|]. split; intros; lia.
  - cbn [walk_back].
    destruct (getitem_in_range cleaned (start + Z.of_nat (S d)))
      as (c & Hc & _); [lia|].
    rewrite Hc. destruct (Ascii.eqb c space) eqn:E.
    + apply Ascii.eqb_eq in E. subst c.
      exists (start + Z.of_nat (S d)).
      split; [reflexivity|]. split; [lia|]. split.
      * intros _. exact Hc.
      * intros j Hj. lia.
    + apply Ascii.eqb_neq in E.
      destruct IH as (e & He & Hr & Hs & Hn); [lia|].
      exists e. split; [exact He|]. split; [lia|]. split; [exact Hs|].
      intros j Hj.
      destruct (Z.eq_dec j (start + Z.of_nat (S d))) as [->|Hne].
      * rewrite Hc. congruence.
      * apply Hn. lia.
Qed.

(** The end of a window lies after its start, at most [chunk_size]
    further, and not before any space of a window that is cut. *)
Lemma window_end_spec (cleaned : str) (start : Z) :
  0 <= start ->
  exists e,
    window_end cleaned start = Some e /\
    start < e <= start + chunk_size /\
    (forall j, start < j <= start + chunk_size ->
               start + chunk_size < len cleaned ->
               getitem cleaned j = Some space -> j <= e) /\
    (len cleaned <= start + chunk_size -> e = start + chunk_size).
Proof.
  intros H0. unfold window_end.
  destruct (start + chunk_size <? len cleaned) eqn:E.
  - apply Z.ltb_lt in E.
    replace (start + chunk_size - start) with chunk_size by lia.
    destruct (walk_back_spec cleaned start (Z.to_nat chunk_size) H0)
      as (e & -> & Hr & _ & Hn).
    { rewrite Z2Nat.id by (unfold chunk_size; lia). exact E. }
    rewrite Z2Nat.id in Hr, Hn by (unfold chunk_size; lia).
    destruct (e =? start) eqn:Ee.
    + eexists. split; [reflexivity|]. unfold chunk_size. split; [lia|].
      split; [|reflexivity].
      intros j Hj _ _. unfold chunk_size in Hj. lia.
    + apply Z.eqb_neq in Ee. exists e. split; [reflexivity|].
      split; [lia|]. split; [|lia]. intros j Hj _ Hsp.
      destruct (Z_le_gt_dec j e) as [Hle|Hgt]; [exact Hle|].
      exfalso. apply (Hn j); [lia|exact Hsp].
  - eexists. split; [reflexivity|]. unfold chunk_size. split; [lia|].
    split; [|reflexivity].
    intros j _ Hlt. apply Z.ltb_ge in E. unfold chunk_size in *. lia.
Qed.

Lemma next_start_spec (e : Z) :
  0 <= e -> 0 <= next_start e /\ e - chunk_overlap <= next_start e <= e.
Proof.
  intros He. unfold next_start, chunk_overlap.
  destruct (e - 150 <? 0) eqn:E;
    [apply Z.ltb_lt in E|apply Z.ltb_ge in E]; lia.
Qed.

Lemma infix_trans {A} (a b c : list A) : infix a b -> infix b c -> infix a c.
Proof.
  intros (p1 & q1 & ->) (p2 & q2 & ->).
  exists (p2 ++ p1), (q1 ++ q2). rewrite <- !app_assoc. reflexivity.
Qed.

Lemma infix_len {A} (s l : list A) : infix s l -> len s <= len l.
Proof.
  intros (p & q & ->). rewrite !len_app.
  pose proof (len_nonneg p). pose proof (len_nonneg q). lia.
Qed.

Lemma lstrip_suffix (s : str) : exists pre, s = pre ++ lstrip s.
Proof.
  induction s as [|c t (pre & IH)]; [exists []; reflexivity|].
  simpl. destruct (isspace c).
  - exists (c :: pre). simpl. f_equal. exact IH.
  - exists []. reflexivity.
Qed.

Lemma strip_infix (s : str) : infix (strip s) s.
Proof.
  unfold strip, rstrip.
  destruct (lstrip_suffix s) as (pre & Hs).
  destruct (lstrip_suffix (rev (lstrip s))) as (post & Hr).
  exists pre, (rev post).
  rewrite Hs at 1. f_equal.
  rewrite <- (rev_involutive (lstrip s)) at 1.
  rewrite Hr at 1. apply rev_app_distr.
Qed.

Lemma slice_infix {A} (l : list A) (a b : Z) : infix (slice l a b) l.
Proof.
  unfold slice.
  set (n := Z.to_nat (clamp (len l) a)).
  set (m := Z.to_nat (clamp (len l) b - clamp (len l) a)).
  exists (firstn n l), (skipn m (skipn n l)).
  rewrite firstn_skipn. symmetry. apply firstn_skipn.
Qed.

Lemma slice_len {A} (l : list A) (a b : Z) :
  0 <= a <= b -> len (slice l a b) <= b - a.
Proof.
  intros [Ha Hab]. unfold slice, len. rewrite length_firstn.
  pose proof (len_nonneg l) as Hl. unfold len in Hl.
  unfold clamp, len.
  destruct (a <? 0) eqn:Ea; [apply Z.ltb_lt in Ea; lia|].
  destruct (b <? 0) eqn:Eb; [apply Z.ltb_lt in Eb; lia|].
  lia.
Qed.

(** A chunk content that is a piece of [cleaned] of at most [chunk_size]
    characters. *)
Local Abbreviation piece_of cleaned :=
  (fun c : TextChunk =>
     len (content c) <= chunk_size /\ infix (content c) cleaned).

Section Loop.
Variable uuid4_hex : nat -> str.
Variables (cleaned source title section : str).

Local Abbreviation body := (loop_body uuid4_hex cleaned source title section).
Local Abbreviation loop := (chunk_loop uuid4_hex cleaned source title section).

(** A pass from a non-negative start succeeds and leaves a non-negative
    start; what it appends, if anything, is the trimmed slice between the
    start and the end of the window. *)
Lemma loop_body_total (st : loop_state) :
  0 <= st_start st ->
  exists e st',
    window_end cleaned (st_start st) = Some e /\
    body st = Some st' /\
    st_start st' = next_start e /\ 0 <= st_start st' /\
    (st_chunks st' = st_chunks st \/
     st_chunks st' =
       st_chunks st
       ++ [make_chunk uuid4_hex source title section st
             (strip (slice cleaned (st_start st) e))]).
Proof.
  intros H0.
  destruct (window_end_spec cleaned (st_start st) H0) as (e & Hw & Hr & _).
  assert (Hn : 0 <= next_start e) by (apply next_start_spec; lia).
  unfold loop_body. rewrite Hw.
  destruct (truthy _); exists e; eexists; cbn; auto 6.
Qed.

Lemma chunk_loop_never_raises (fuel : nat) :
  forall st, 0 <= st_start st -> loop fuel st <> Raised.
Proof.
  induction fuel as [|fuel IH]; intros st H0; rewrite chunk_loop_unfold;
    destruct (st_start st <? len cleaned); try discriminate.
  destruct (loop_body_total st H0) as (e & st' & _ & -> & _ & H0' & _).
  apply IH, H0'.
Qed.

Lemma loop_body_pieces (st st' : loop_state) :
  0 <= st_start st -> Forall (piece_of cleaned) (st_chunks st) ->
  body st = Some st' ->
  0 <= st_start st' /\ Forall (piece_of cleaned) (st_chunks st').
Proof.
  intros H0 Hinv Hb.
  destruct (loop_body_total st H0) as (e & st1 & Hw & Hb1 & _ & H0' & Hc).
  rewrite Hb in Hb1. injection Hb1 as <-. split; [exact H0'|].
  destruct Hc as [->| ->]; [exact Hinv|].
  apply Forall_app. split; [exact Hinv|]. constructor; [|constructor].
  cbn [content make_chunk].
  destruct (window_end_spec cleaned (st_start st) H0) as (e' & Hw' & Hr & _).
  rewrite Hw in Hw'. injection Hw' as <-.
  split.
  - pose proof (infix_len _ _ (strip_infix (slice cleaned (st_start st) e))).
    pose proof (slice_len cleaned (st_start st) e ltac:(lia)). lia.
  - eapply infix_trans; [apply strip_infix|apply slice_infix].
Qed.

Lemma chunk_loop_pieces (fuel : nat) :
  forall st chunks,
    0 <= st_start st -> Forall (piece_of cleaned) (st_chunks st) ->
    loop fuel st = Returned chunks -> Forall (piece_of cleaned) chunks.
Proof.
  induction fuel as [|fuel IH]; intros st chunks H0 Hinv;
    rewrite chunk_loop_unfold;
    destruct (st_start st <? len cleaned); try discriminate;
    try (intros [= <-]; exact Hinv).
  destruct (body st) as [st'|] eqn:Hb; [|discriminate].
  destruct (loop_body_pieces st st' H0 Hinv Hb) as [H0' Hinv'].
  apply IH; assumption.
Qed.

End Loop.

(** X2: every chunk that [chunk_text] returns holds at most [chunk_size]
    = 1000 characters, and its content is a contiguous piece of the
    whitespace-normalized text. *)
Theorem chunks_are_bounded_pieces (fuel : nat) (uuid4_hex : nat -> str)
    (text source title section : str) (chunks : list TextChunk) :
  chunk_text fuel uuid4_hex text source title section = Returned chunks ->
  Forall (fun c => len (content c) <= 1000 /\
                   infix (content c) (clean_text text)) chunks.
Proof.
  apply chunk_loop_pieces; [cbn; lia|constructor].
Qed.

Lemma chunks_are_bounded_pieces_witness :
  chunk_text 1 fixed_uuid abc_text (lit "doc") (lit "Title") (lit "main")
    = Returned [abc_chunk] /\
  Forall (fun c => len (content c) <= 1000 /\
                   infix (content c) (clean_text abc_text)) [abc_chunk].
Proof.
  split; [reflexivity|].
  apply (chunks_are_bounded_pieces 1 fixed_uuid abc_text (lit "doc")
           (lit "Title") (lit "main") [abc_chunk]).
  reflexivity.
Defined.

(** X1: [chunk_text] never raises: the index [cleaned_text[end]] read by
    the inner loop is always inside the text, so the call either returns
    or keeps running. *)
Theorem chunk_text_never_raises (fuel : nat) (uuid4_hex : nat -> str)
    (text source title section : str) :
  chunk_text fuel uuid4_hex text source title section <> Raised.
Proof.
  apply chunk_loop_never_raises. cbn. lia.
Qed.

(** *** The normal form of the text *)

Lemma split_word_sep (w : str) (c : ascii) (r : str) :
  word w -> isspace c = true -> split (w ++ c :: r) = w :: split r.
Proof.
  intros [Hne Hw] Hc. induction Hw as [|a w' Ha Hw' IH]; [contradiction|].
  destruct w' as [|a' w''].
  - cbn. rewrite Ha, Hc. reflexivity.
  - change ((a :: a' :: w'') ++ c :: r) with (a :: ((a' :: w'') ++ c :: r)).
    cbn [split]. rewrite Ha.
    change ((a' :: w'') ++ c :: r) with (a' :: (w'' ++ c :: r)) at 1.
    cbv iota.
    inversion Hw' as [|? ? Ha' _]; subst. rewrite Ha'.
    rewrite IH by discriminate. reflexivity.
Qed.

Lemma split_join (ws : list str) :
  Forall word ws -> split (join [space] ws) = ws.
Proof.
  induction 1 as [|w ws Hw Hws IH]; [reflexivity|].
  cbn [join]. destruct ws as [|w' ws'].
  - destruct Hw as [Hne Hw]. apply split_no_space; assumption.
  - change ([space] ++ join [space] (w' :: ws'))
      with (space :: join [space] (w' :: ws')).
    rewrite split_word_sep by (assumption || reflexivity).
    rewrite IH. reflexivity.
Qed.

Lemma join_chars (ws : list str) (c : ascii) :
  In c (join [space] ws) -> c = space \/ exists w, In w ws /\ In c w.
Proof.
  induction ws as [|w ws IH]; [contradiction|].
  cbn [join]. destruct ws as [|w' ws'].
  - intros Hc. right. exists w. split; [left; reflexivity|exact Hc].
  - intros Hc. apply in_app_or in Hc. destruct Hc as [Hc|Hc].
    + right. exists w. split; [left; reflexivity|exact Hc].
    + destruct Hc as [<-|Hc]; [left; reflexivity|].
      destruct (IH Hc) as [->|(w0 & Hw0 & Hc0)]; [left; reflexivity|].
      right. exists w0. split; [right; exact Hw0|exact Hc0].
Qed.

(** X3: [" ".join(text.split())] is a normal form: splitting it gives the
    same words, cleaning it again changes nothing, and the only
    whitespace left in it is the single space. *)
Theorem clean_text_normal_form (text : str) :
  split (clean_text text) = split text /\
  clean_text (clean_text text) = clean_text text /\
  Forall (fun c => isspace c = true -> c = space) (clean_text text).
Proof.
  assert (Hs : split (clean_text text) = split text)
    by apply split_join, split_words.
  split; [exact Hs|]. split.
  - unfold clean_text at 1. rewrite Hs. reflexivity.
  - apply Forall_forall. intros c Hc Hsp.
    destruct (join_chars _ _ Hc) as [->|(w & Hw & Hcw)]; [reflexivity|].
    pose proof (split_words text) as Hwords.
    rewrite Forall_forall in Hwords. destruct (Hwords w Hw) as [_ Hns].
    rewrite Forall_forall in Hns. rewrite (Hns c Hcw) in Hsp. discriminate.
Qed.

(** *** Blank texts *)

Lemma split_blank (s : str) : blank s <-> split s = [].
Proof.
  split.
  - induction 1 as [|c t Hc _ IH]; [reflexivity|].
    cbn. rewrite Hc. exact IH.
  - induction s as [|c t IH]; [constructor|].
    cbn [split]. destruct (isspace c) eqn:Ec.
    + intros H. constructor; [exact Ec|apply IH, H].
    + destruct t as [|c' t']; [discriminate|].
      destruct (isspace c'); [discriminate|].
      destruct (split (c' :: t')); discriminate.
Qed.

Lemma clean_text_blank (text : str) : blank text <-> clean_text text = [].
Proof.
  rewrite split_blank. unfold clean_text. split; [intros ->; reflexivity|].
  intros H. destruct (split text) as [|w ws] eqn:E; [reflexivity|].
  exfalso. revert H. apply join_nonempty; [|discriminate].
  rewrite <- E. apply split_words.
Qed.

Lemma rstrip_nonempty (c : ascii) (s : str) :
  isspace c = false -> rstrip (c :: s) <> [].
Proof.
  intros Hc. unfold rstrip. cbn [rev]. rewrite lstrip_app_last by exact Hc.
  rewrite rev_app_distr. discriminate.
Qed.

Lemma chunk_loop_grows (uuid4_hex : nat -> str)
    (cleaned source title section : str) (fuel : nat) :
  forall st chunks,
    chunk_loop uuid4_hex cleaned source title section fuel st
      = Returned chunks ->
    exists more, chunks = st_chunks st ++ more.
Proof.
  induction fuel as [|fuel IH]; intros st chunks;
    rewrite chunk_loop_unfold;
    destruct (st_start st <? len cleaned); try discriminate;
    try (intros [= <-]; exists []; symmetry; apply app_nil_r).
  destruct (loop_body uuid4_hex cleaned source title section st)
    as [st'|] eqn:Hb; [|discriminate].
  intros Hr. destruct (IH _ _ Hr) as (more & ->).
  destruct (loop_body_chunks _ _ _ _ _ _ _ Hb)
    as [(-> & _)|(t & _ & _ & -> & _)].
  - exists more. reflexivity.
  - eexists. rewrite <- app_assoc. reflexivity.
Qed.

(** The first pass over a text that is not blank appends a chunk. *)
Lemma first_pass_emits (uuid4_hex : nat -> str)
    (cleaned source title section : str) :
  trimmed cleaned -> cleaned <> [] ->
  exists st' c,
    loop_body uuid4_hex cleaned source title section init_state = Some st' /\
    st_chunks st' = [c].
Proof.
  intros [Hh _] Hne.
  destruct (window_end_spec cleaned 0 ltac:(lia)) as (e & Hw & Hr & _).
  assert (Hs : strip (slice cleaned 0 e) <> []).
  { rewrite slice_prefix by lia.
    destruct cleaned as [|c0 t]; [contradiction|].
    destruct (Z.to_nat e) as [|n] eqn:En; [lia|].
    cbn [firstn]. unfold strip. cbn [lstrip]. cbn in Hh. rewrite Hh.
    apply rstrip_nonempty, Hh. }
  do 2 eexists. split.
  - apply loop_body_emits; [exact Hw|exact Hs].
  - reflexivity.
Qed.

(** X4: [chunk_text] returns the empty list exactly on blank texts: a
    text of whitespace only (or the empty text) gives no chunk and no
    error, whatever bound on the iterations; any other text gives at
    least one chunk when the call returns. *)
Theorem no_chunks_iff_blank (fuel : nat) (uuid4_hex : nat -> str)
    (text source title section : str) :
  (blank text ->
   chunk_text fuel uuid4_hex text source title section = Returned []) /\
  (forall chunks,
     chunk_text fuel uuid4_hex text source title section = Returned chunks ->
     (chunks = [] <-> blank text)).
Proof.
  assert (Hb : blank text ->
               chunk_text fuel uuid4_hex text source title section
               = Returned []).
  { intros H. apply clean_text_blank in H. unfold chunk_text. rewrite H.
    apply chunk_loop_done. cbn. lia. }
  split; [exact Hb|]. intros chunks Hr. split.
  - intros ->. apply clean_text_blank.
    destruct (clean_text text) as [|c0 t] eqn:E; [reflexivity|exfalso].
    destruct (first_pass_emits uuid4_hex (clean_text text) source title
                section (clean_text_trimmed text))
      as (st' & c & Hbody & Hc); [rewrite E; discriminate|].
    unfold chunk_text in Hr. destruct fuel as [|fuel].
    + rewrite chunk_loop_unfold in Hr. rewrite E in Hr. discriminate.
    + rewrite (chunk_loop_step uuid4_hex (clean_text text) source title
                 section fuel init_state st') in Hr;
        [|rewrite E; cbn; lia|exact Hbody].
      destruct (chunk_loop_grows _ _ _ _ _ _ _ _ Hr) as (more & Hm).
      rewrite Hc in Hm. discriminate.
  - intros H. rewrite (Hb H) in Hr. injection Hr as <-. reflexivity.
Qed.

Lemma no_chunks_iff_blank_witness :
  blank (lit "   ") /\
  chunk_text 0 fixed_uuid (lit "   ") (lit "doc") (lit "Title") (lit "main")
    = Returned [].
Proof.
  split.
  - repeat constructor.
  - apply (no_chunks_iff_blank 0 fixed_uuid (lit "   ") (lit "doc")
             (lit "Title") (lit "main")).
    repeat constructor.
Defined.

(** *** Termination when no word is long *)



Section ShortWords.
Variable uuid4_hex : nat -> str.
Variables (ws : list str) (source title section : str).
Hypothesis short : Forall (fun w => len w <= chunk_size - chunk_overlap - 1) ws.

Local Abbreviation cleaned := (join [space] ws).



End ShortWords.



(** *** Texts of 851 to 1000 characters *)

Lemma strip_tail_nonempty (s : str) (n : nat) :
  trimmed s -> (n < List.length s)%nat -> strip (skipn n s) <> [].
Proof.
  intros [_ Hr] Hn.
  assert (Hrev : rev s = rev (skipn n s) ++ rev (firstn n s)).
  { rewrite <- rev_app_distr, firstn_skipn. reflexivity. }
  destruct (rev (skipn n s)) as [|c r] eqn:E.
  - exfalso. apply (f_equal (@rev ascii)) in E.
    rewrite rev_involutive in E. cbn in E.
    apply (f_equal (@List.length ascii)) in E.
    rewrite length_skipn in E. cbn in E. lia.
  - rewrite Hrev in Hr. cbn in Hr.
    apply (f_equal (@rev ascii)) in E. rewrite rev_involutive in E.
    cbn [rev] in E. rewrite E.
    unfold strip. intros Hs.
    apply (f_equal (@rev ascii)) in Hs. unfold rstrip in Hs.
    rewrite rev_involutive in Hs.
    destruct (lstrip_suffix (rev r ++ [c])) as (pre & Hp).
    assert (Hl : lstrip (rev r ++ [c]) <> []).
    { rewrite lstrip_app_last by exact Hr. destruct (lstrip (rev r)); discriminate. }
    destruct (lstrip (rev r ++ [c])) as [|d t] eqn:El; [contradiction|].
    assert (Hlast : exists t', d :: t = t' ++ [c]).
    { rewrite <- El. rewrite lstrip_app_last by exact Hr. eauto. }
    destruct Hlast as (t' & Ht'). rewrite Ht' in Hs.
    rewrite rev_app_distr in Hs. cbn in Hs. rewrite Hr in Hs. discriminate.
Qed.

(** X6: a normalized text of 851 to 1000 characters gives exactly two
    chunks: the whole text at position 0, and at position 1 the
    characters from offset 850 on, trimmed, which the first chunk holds
    already. *)
Theorem tail_chunk_repeated (fuel : nat) (uuid4_hex : nat -> str)
    (text source title section : str) :
  chunk_size - chunk_overlap < len (clean_text text) <= chunk_size ->
  exists c1 c2,
    chunk_text (S (S fuel)) uuid4_hex text source title section
      = Returned [c1; c2] /\
    content c1 = clean_text text /\
    content c2 = strip (skipn 850 (clean_text text)) /\
    content c2 <> [] /\
    chunk_at uuid4_hex source 0 c1 /\ chunk_at uuid4_hex source 1 c2.
Proof.
  intros [Hlo Hhi]. unfold chunk_size, chunk_overlap in Hlo, Hhi.
  set (cleaned := clean_text text) in *.
  pose proof (clean_text_trimmed text) as Ht. fold cleaned in Ht.
  set (st1 := mkState (chunk_size - chunk_overlap) 1
                [make_chunk uuid4_hex source title section init_state cleaned]
                1).
  assert (H1 : loop_body uuid4_hex cleaned source title section init_state
               = Some st1).
  { apply first_window; [exact Ht|unfold chunk_size; lia]. }
  assert (Hw : window_end cleaned (st_start st1) = Some 1850).
  { unfold window_end. cbn [st_start st1].
    destruct (chunk_size - chunk_overlap + chunk_size <? len cleaned) eqn:E;
      [|reflexivity].
    apply Z.ltb_lt in E. unfold chunk_size, chunk_overlap in E. lia. }
  assert (Hsl : slice cleaned (st_start st1) 1850 = skipn 850 cleaned).
  { unfold slice, clamp. cbn [st_start st1].
    change (chunk_size - chunk_overlap) with 850.
    change (850 <? 0) with false.
    change (1850 <? 0) with false. cbv iota.
    rewrite (Z.min_l 850) by lia. rewrite (Z.min_r 1850) by lia.
    change (Z.to_nat 850) with 850%nat.
    apply firstn_all2. rewrite length_skipn. unfold len. lia. }
  assert (Hne : strip (slice cleaned (st_start st1) 1850) <> []).
  { rewrite Hsl. apply strip_tail_nonempty; [exact Ht|].
    unfold len in Hlo. lia. }
  pose proof (loop_body_emits uuid4_hex cleaned source title section
                st1 1850 Hw Hne) as H2.
  do 2 eexists. split; [|split; [|split; [|split; [|split]]]].
  - unfold chunk_text. fold cleaned.
    rewrite (chunk_loop_step uuid4_hex cleaned source title section
               (S fuel) init_state st1); [|cbn; lia|exact H1].
    rewrite (chunk_loop_step uuid4_hex cleaned source title section
               fuel st1 _ ltac:(cbn; unfold chunk_size, chunk_overlap; lia) H2).
    rewrite chunk_loop_done; [reflexivity|].
    cbn. lia.
  - reflexivity.
  - cbn [content make_chunk]. rewrite Hsl. reflexivity.
  - cbn [content make_chunk]. exact Hne.
  - split; reflexivity.
  - split; reflexivity.
Qed.

Lemma tail_chunk_repeated_witness :
  chunk_size - chunk_overlap < len (clean_text text_900) <= chunk_size /\
  exists c1 c2,
    chunk_text 2 fixed_uuid text_900 (lit "doc") (lit "Title") (lit "main")
      = Returned [c1; c2] /\
    content c1 = clean_text text_900 /\
    content c2 = strip (skipn 850 (clean_text text_900)) /\
    content c2 <> [] /\
    chunk_at fixed_uuid (lit "doc") 0 c1 /\ chunk_at fixed_uuid (lit "doc") 1 c2.
Proof.
  split.
  - vm_compute. split; [reflexivity|discriminate].
  - apply (tail_chunk_repeated 0 fixed_uuid text_900).
    vm_compute. split; [reflexivity|discriminate].
Defined.

End ChunkingMore.

(** ** services/llm.py: further properties *)

Module LLMMore.
Import Py Eff Schemas Services LLM Exact Spec SpecMore PyFacts.
Import CitationFacts ExactFacts ChunkingMore.

(** *** The scan for markers *)

Lemma span_digits_spec (s ds r : str) :
  span_digits s = (ds, r) ->
  s = ds ++ r /\ forallb isdigit ds = true /\
  match r with [] => True | c :: _ => isdigit c = false end.
Proof.
  revert ds r. induction s as [|c t IH]; intros ds r; cbn [span_digits].
  - intros [= <- <-]. auto.
  - destruct (isdigit c) eqn:Ec.
    + destruct (span_digits t) as [ds' r'] eqn:Et.
      intros [= <- <-]. destruct (IH _ _ eq_refl) as (-> & Hd & Hr).
      cbn. rewrite Ec, Hd. auto.
    + intros [= <- <-]. cbn. auto.
Qed.

Lemma span_digits_run (ds r : str) :
  forallb isdigit ds = true ->
  match r with [] => True | c :: _ => isdigit c = false end ->
  span_digits (ds ++ r) = (ds, r).
Proof.
  intros Hd Hr. induction ds as [|d ds IH]; cbn in *.
  - destruct r as [|c r']; [reflexivity|]. cbn. rewrite Hr. reflexivity.
  - apply andb_true_iff in Hd. destruct Hd as [Hd1 Hd2].
    rewrite Hd1, (IH Hd2). reflexivity.
Qed.

Lemma match_here_spec (s ds r : str) :
  match_here s = Some (ds, r) ->
  s = "["%char :: ds ++ "]"%char :: r /\
  ds <> [] /\ forallb isdigit ds = true.
Proof.
  unfold match_here. destruct s as [|c t]; [discriminate|].
  destruct (Ascii.eqb c "["%char) eqn:Ec.
  - apply Ascii.eqb_eq in Ec. subst c.
    destruct (span_digits t) as [ds' r'] eqn:Et.
    destruct (span_digits_spec _ _ _ Et) as (-> & Hd & _).
    destruct ds' as [|d ds']; [discriminate|].
    destruct r' as [|c r']; [discriminate|].
    destruct (Ascii.eqb c "]"%char) eqn:Ec.
    + apply Ascii.eqb_eq in Ec. subst c. intros [= <- <-].
      repeat split; [discriminate|exact Hd].
    + apply Ascii.eqb_neq in Ec.
      destruct c as [[] [] [] [] [] [] [] []]; try discriminate.
      contradiction.
  - apply Ascii.eqb_neq in Ec.
    destruct c as [[] [] [] [] [] [] [] []]; try discriminate.
    contradiction.
Qed.

Lemma match_here_other (c : ascii) (t : str) :
  c <> "["%char -> match_here (c :: t) = None.
Proof.
  intros Hc. unfold match_here.
  destruct c as [[] [] [] [] [] [] [] []]; try reflexivity.
  contradiction.
Qed.

(** The bound on the positions tried does not matter once it covers the
    text. *)
Lemma findall_from_enough (fuel : nat) :
  forall fuel' s,
    (List.length s <= fuel)%nat -> (List.length s <= fuel')%nat ->
    findall_from fuel s = findall_from fuel' s.
Proof.
  induction fuel as [|fuel IH]; intros fuel' s H1 H2.
  - destruct s; [|cbn in H1; lia]. destruct fuel'; reflexivity.
  - destruct fuel' as [|fuel'].
    + destruct s; [reflexivity|cbn in H2; lia].
    + cbn [findall_from]. destruct s as [|c t]; [reflexivity|].
      cbn in H1, H2.
      destruct (match_here (c :: t)) as [[ds r]|] eqn:E.
      * destruct (match_here_spec _ _ _ E) as (Hs & _ & _).
        injection Hs as _ ->.
        f_equal. apply IH; rewrite length_app in *; cbn in *; lia.
      * apply IH; lia.
Qed.

Lemma findall_cons_other (c : ascii) (t : str) :
  c <> "["%char -> findall (c :: t) = findall t.
Proof.
  intros Hc. unfold findall. cbn [List.length findall_from].
  rewrite match_here_other by exact Hc. reflexivity.
Qed.

Lemma findall_marker (ds post : str) :
  ds <> [] -> forallb isdigit ds = true ->
  findall ("["%char :: ds ++ "]"%char :: post) = ds :: findall post.
Proof.
  intros Hne Hd. unfold findall. cbn [List.length findall_from].
  unfold match_here. rewrite span_digits_run by (exact Hd || reflexivity).
  destruct ds as [|d ds']; [contradiction|].
  f_equal. apply findall_from_enough; [|lia].
  rewrite length_app. cbn. lia.
Qed.

(** X7: how [re.findall] scans: text without an opening bracket is
    skipped, and a bracketed run of digits is captured, the scan going on
    behind its closing bracket. *)
Theorem findall_scan (pre ds post : str) :
  Forall (fun c => c <> "["%char) pre ->
  ds <> [] -> forallb isdigit ds = true ->
  findall (pre ++ "["%char :: ds ++ "]"%char :: post) = ds :: findall post.
Proof.
  intros Hpre Hne Hd. induction Hpre as [|c pre Hc _ IH].
  - apply findall_marker; assumption.
  - cbn [app]. rewrite findall_cons_other by exact Hc. exact IH.
Qed.

Lemma findall_scan_witness :
  (Forall (fun c => c <> "["%char) (lit "see ") /\
   lit "12" <> [] /\ forallb isdigit (lit "12") = true) /\
  findall (lit "see [12] and [3]") = lit "12" :: findall (lit " and [3]").
Proof.
  split.
  - split; [repeat constructor; discriminate|].
    split; [discriminate|reflexivity].
  - apply (findall_scan (lit "see ") (lit "12") (lit " and [3]")).
    + repeat constructor; discriminate.
    + discriminate.
    + reflexivity.
Defined.

Lemma findall_from_sound (fuel : nat) :
  forall s,
    Forall (fun m => m <> [] /\ forallb isdigit m = true /\
                     infix ("["%char :: m ++ ["]"%char]) s)
           (findall_from fuel s).
Proof.
  induction fuel as [|fuel IH]; intros s; cbn [findall_from]; [constructor|].
  destruct s as [|c t]; [constructor|].
  destruct (match_here (c :: t)) as [[ds r]|] eqn:E.
  - destruct (match_here_spec _ _ _ E) as (Hs & Hne & Hd).
    constructor.
    + split; [exact Hne|]. split; [exact Hd|].
      exists [], r. rewrite Hs. cbn. rewrite <- app_assoc. reflexivity.
    + eapply Forall_impl; [|apply (IH r)].
      cbn. intros m (H1 & H2 & H3). repeat split; try assumption.
      eapply infix_trans; [exact H3|].
      exists ("["%char :: ds ++ ["]"%char]), []. rewrite Hs.
      cbn. rewrite <- app_assoc, app_nil_r. reflexivity.
  - eapply Forall_impl; [|apply (IH t)].
    cbn. intros m (H1 & H2 & H3). repeat split; try assumption.
    eapply infix_trans; [exact H3|]. exists [c], []. cbn.
    rewrite app_nil_r. reflexivity.
Qed.

(** X8: every string that [re.findall] returns is a non-empty run of
    digits that stands between brackets somewhere in the text; a text
    without an opening bracket has no marker. *)
Theorem findall_sound (s : str) :
  Forall (fun m => m <> [] /\ forallb isdigit m = true /\
                   infix ("["%char :: m ++ ["]"%char]) s)
         (findall s)
  /\ (Forall (fun c => c <> "["%char) s -> findall s = []).
Proof.
  split; [apply findall_from_sound|].
  induction 1 as [|c t Hc _ IH]; [reflexivity|].
  rewrite findall_cons_other by exact Hc. exact IH.
Qed.

(** *** What a citation holds *)

Section WithFloat.
Context `{PyFloat}.

Lemma content_snippet_bound (doc : SourceDocument) :
  len (content_snippet doc) <= 153 /\
  (len (doc_content doc) <= 150 -> content_snippet doc = doc_content doc) /\
  (150 < len (doc_content doc) ->
   content_snippet doc = firstn 150 (doc_content doc) ++ lit "...").
Proof.
  unfold content_snippet. rewrite slice_to_firstn by lia.
  change (Z.to_nat 150) with 150%nat.
  destruct (150 <? len (doc_content doc)) eqn:E;
    [apply Z.ltb_lt in E|apply Z.ltb_ge in E].
  - split; [|split; [lia|reflexivity]].
    rewrite len_app. change (len (lit "...")) with 3.
    unfold len in *. rewrite length_firstn. lia.
  - rewrite app_nil_r. rewrite firstn_all2 by (unfold len in E; lia).
    split; [lia|]. split; [reflexivity|lia].
Qed.

Lemma getitem_nth_error {A} (l : list A) (i : Z) (x : A) :
  0 <= i -> getitem l i = Some x -> nth_error l (Z.to_nat i) = Some x.
Proof.
  intros Hi. unfold getitem.
  destruct (i <? 0) eqn:E; [apply Z.ltb_lt in E; lia|]. rewrite E. cbn.
  destruct (len l <=? i); [discriminate|]. auto.
Qed.

(** X9: every citation returned by [_extract_citations] has an index
    between 1 and the number of context documents that was written as a
    marker in the answer; its source and title are those of the document
    at that 1-based position, and its snippet is the content of that
    document, cut to 150 characters and followed by three dots when the
    content is longer; the citations are sorted by index. *)
Theorem citations_describe_documents (answer_text : str)
    (docs : list SourceDocument) :
  Forall (fun c =>
            1 <= cit_index c <= len docs /\
            (exists m, In m (findall answer_text) /\
                       cit_index c = int_of_digits m) /\
            exists doc,
              nth_error docs (Z.to_nat (cit_index c - 1)) = Some doc /\
              cit_source c = doc_source doc /\
              cit_title c = doc_title doc /\
              cit_content_snippet c = content_snippet doc /\
              len (cit_content_snippet c) <= 153)
         (extract_citations answer_text docs)
  /\ StronglySorted (fun a b => cit_index a <= cit_index b)
       (extract_citations answer_text docs).
Proof.
  split; [|apply sort_citations_sorted].
  apply Forall_forall. intros c Hc.
  unfold extract_citations, extract_citations_in_order in Hc.
  apply (Permutation_in _ (sort_citations_perm _)) in Hc.
  apply in_filter_map in Hc. destruct Hc as (m & Hm & Hc).
  apply nodup_In in Hm.
  destruct (citation_of_spec _ _ _ Hc) as (Hr & Hi & doc & Hg & Hd).
  split; [exact Hr|]. split; [exists m; auto|].
  exists doc. split; [apply getitem_nth_error; [lia|exact Hg]|].
  rewrite Hd. cbn. repeat split. apply content_snippet_bound.
Qed.

(** With no context document there is no citation, whatever the answer
    says. *)
Lemma extract_citations_no_context (answer_text : str) :
  extract_citations answer_text [] = [].
Proof.
  pose proof (citations_describe_documents answer_text []) as [Hf _].
  destruct (extract_citations answer_text []) as [|c l]; [reflexivity|].
  inversion Hf as [|? ? (Hr & _) _]; subst. cbn in Hr. lia.
Qed.

End WithFloat.

(** *** Markers without leading zeros *)

Lemma digit_value_range (c : ascii) :
  isdigit c = true -> 0 <= digit_value c <= 9.
Proof.
  unfold isdigit, digit_value. intros Hc.
  apply andb_true_iff in Hc. destruct Hc as [H1 H2].
  apply Z.leb_le in H1, H2. lia.
Qed.


Lemma int_of_digits_snoc (s : str) (c : ascii) :
  int_of_digits (s ++ [c]) = 10 * int_of_digits s + digit_value c.
Proof. unfold int_of_digits. rewrite fold_left_app. reflexivity. Qed.

Lemma int_of_digits_nonneg (s : str) :
  forallb isdigit s = true -> 0 <= int_of_digits s.
Proof.
  induction s as [|c s IH] using rev_ind; intros Hd; [cbn; lia|].
  rewrite forallb_app in Hd. apply andb_true_iff in Hd.
  destruct Hd as [Hs Hc]. cbn in Hc. rewrite andb_true_r in Hc.
  rewrite int_of_digits_snoc.
  pose proof (digit_value_range c Hc). specialize (IH Hs). lia.
Qed.






(** X11: the order in which the loop of [_extract_citations] visits the
    set of markers does not show in the result. *)
Theorem citations_any_set_order `{PyFloat} (set_order : list str -> list str)
    (answer_text : str) (docs : list SourceDocument) :
  Permutation (set_order (findall answer_text))
              (nodup str_eq_dec (findall answer_text)) ->
  extract_citations_in_order set_order answer_text docs
  = extract_citations answer_text docs.
Proof. apply extract_citations_any_order. Qed.

Lemma citations_any_set_order_witness :
  Permutation
    (rev (nodup str_eq_dec (findall (lit "[3] then [1] then [2]"))))
    (nodup str_eq_dec (findall (lit "[3] then [1] then [2]"))) /\
  @extract_citations_in_order exact_float
    (fun l => rev (nodup str_eq_dec l)) (lit "[3] then [1] then [2]")
    three_docs
  = @extract_citations exact_float (lit "[3] then [1] then [2]") three_docs.
Proof.
  split.
  - symmetry. apply Permutation_rev.
  - apply (@citations_any_set_order exact_float
             (fun l => rev (nodup str_eq_dec l))).
    symmetry. apply Permutation_rev.
Defined.

(** *** Token usage, cost and the empty context *)

Section Estimates.
Context `{PyFloat}.

(** X12: the token counts are within three characters of a quarter of the
    lengths, and with the same prompt a longer completion never has a
    smaller estimated cost. *)
Theorem estimate_cost_grows_with_completion `{!PyFloatOrder}
    (prompt response response' : str) :
  len response <= len response' ->
  let usage := estimate_token_usage prompt response in
  4 * prompt_tokens usage <= len prompt < 4 * prompt_tokens usage + 4 /\
  4 * completion_tokens usage <= len response
    < 4 * completion_tokens usage + 4 /\
  fle (estimate_cost usage)
      (estimate_cost (estimate_token_usage prompt response')).
Proof.
  intros Hlen. cbn zeta. cbn [estimate_token_usage prompt_tokens
    completion_tokens].
  pose proof (len_nonneg prompt) as Hp.
  pose proof (len_nonneg response) as Hr.
  pose proof (Z.div_mod (len prompt) 4 ltac:(lia)) as Hdp.
  pose proof (Z.mod_pos_bound (len prompt) 4 ltac:(lia)) as Hmp.
  pose proof (Z.div_mod (len response) 4 ltac:(lia)) as Hdr.
  pose proof (Z.mod_pos_bound (len response) 4 ltac:(lia)) as Hmr.
  split; [lia|]. split; [lia|].
  unfold estimate_cost. cbn [prompt_tokens completion_tokens].
  assert (Hc : 0 <= len response / 4 <= len response' / 4).
  { split; [apply Z.div_pos; lia|apply Z.div_le_mono; lia]. }
  assert (Hpt : 0 <= len prompt / 4 <= len prompt / 4)
    by (split; [apply Z.div_pos; lia|lia]).
  destruct (int_truediv_monotone _ _ 1000 Hpt ltac:(lia)) as [Hp0 Hp1].
  destruct (int_truediv_monotone _ _ 1000 Hc ltac:(lia)) as [Hc0 Hc1].
  destruct (scale_input_rate _ _ Hp0 Hp1) as [Hin _].
  destruct (scale_output_rate _ _ Hc0 Hc1) as [Hout0 Hout1].
  apply fround_monotone, fadd_monotone; assumption.
Qed.

Variable sv : services.

(** X13: with an empty context [generate_answer] does not call the model
    and does not read the clock: it returns the fixed answer with no
    citations and generation time 0.0; but the check of the model comes
    first, so without a model the degraded answer is returned also
    then. *)
Theorem generate_answer_empty_context (query : str) (w : world) :
  match model sv with
  | Some _ =>
      generate_answer sv query [] w
      = (inr (mkLLMResponse no_context_answer [] (flit 0) None None),
         mkWorld (clock w) (trace w ++ [EvEnterGenerateAnswer]))
  | None =>
      generate_answer sv query [] w
      = (inr (mkLLMResponse error_answer [] (flit 0) None None),
         mkWorld (clock w)
           ((trace w ++ [EvEnterGenerateAnswer]) ++ [EvLogError]))
  end.
Proof.
  unfold generate_answer, bind, try_except, emit, log_error, ret, raise.
  destruct (model sv); reflexivity.
Qed.

End Estimates.

Lemma estimate_cost_grows_with_completion_witness :
  len (lit "short") <= len (lit "a longer completion") /\
  @fle exact_float
    (estimate_cost (estimate_token_usage (lit "the prompt") (lit "short")))
    (estimate_cost
       (estimate_token_usage (lit "the prompt") (lit "a longer completion"))).
Proof.
  assert (Hlen : len (lit "short") <= len (lit "a longer completion"))
    by (vm_compute; discriminate).
  split; [exact Hlen|].
  exact (proj2 (proj2
           (@estimate_cost_grows_with_completion exact_float
              exact_float_order (lit "the prompt") (lit "short")
              (lit "a longer completion") Hlen))).
Defined.

End LLMMore.

(** ** services/retrieval.py: further properties *)

Module RetrievalMore.
Import Py Eff Schemas Services Stores Retrieval Routes LLM Exact Spec.
Import Scored ExactMore PyFacts EffFacts RetrievalFacts RoutesFacts.

Section WithFloat.
Context `{PyFloat}.

Lemma set_rerank_score_length (ds : list SourceDocument) (i : nat)
    (s : float) :
  List.length (set_rerank_score ds i s) = List.length ds.
Proof.
  revert i. induction ds as [|d ds IH]; intros [|i]; cbn; auto.
Qed.

Lemma set_rerank_score_same (ds : list SourceDocument) (i : nat)
    (s : float) :
  nth_error (set_rerank_score ds i s) i
  = option_map (fun d => with_rerank_score d s) (nth_error ds i).
Proof.
  revert i. induction ds as [|d ds IH]; intros [|i]; cbn; auto.
Qed.

Lemma set_rerank_score_other (ds : list SourceDocument) (i j : nat)
    (s : float) :
  i <> j -> nth_error (set_rerank_score ds i s) j = nth_error ds j.
Proof.
  revert i j. induction ds as [|d ds IH]; intros [|i] [|j] Hne; cbn; auto.
  contradiction.
Qed.

Lemma apply_scores_length (results : list rerank_hit) :
  forall ds, List.length (apply_scores results ds) = List.length ds.
Proof.
  induction results as [|h rs IH]; intros ds; [reflexivity|].
  cbn. unfold apply_scores in IH. rewrite IH.
  apply set_rerank_score_length.
Qed.

Lemma apply_scores_untouched (results : list rerank_hit) (p : nat) :
  forall ds,
    ~ In p (map (fun h => Z.to_nat (hit_index h)) results) ->
    nth_error (apply_scores results ds) p = nth_error ds p.
Proof.
  induction results as [|h rs IH]; intros ds Hnin; [reflexivity|].
  cbn in *. unfold apply_scores in IH. rewrite IH by tauto.
  apply set_rerank_score_other. tauto.
Qed.

Lemma resolve_index_in_range {A} (l : list A) (i : Z) :
  0 <= i < len l -> resolve_index l i = Some (Z.to_nat i).
Proof.
  intros [H0 H1]. unfold resolve_index. cbn zeta.
  destruct (i <? 0) eqn:E0; [apply Z.ltb_lt in E0; lia|].
  cbv iota. rewrite E0. cbn [orb].
  destruct (len l <=? i) eqn:E1; [apply Z.leb_le in E1; lia|reflexivity].
Qed.

Lemma resolve_index_out_of_range {A} (l : list A) (i : Z) :
  i < - len l \/ len l <= i -> resolve_index l i = None.
Proof.
  intros Hi. unfold resolve_index. cbn zeta. pose proof (len_nonneg l).
  destruct (i <? 0) eqn:E0;
    [apply Z.ltb_lt in E0|apply Z.ltb_ge in E0].
  - cbv iota. destruct (len l + i <? 0) eqn:E1; [reflexivity|].
    apply Z.ltb_ge in E1. lia.
  - cbv iota. apply Z.ltb_ge in E0. rewrite E0. cbn [orb].
    destruct (len l <=? i) eqn:E1; [reflexivity|].
    apply Z.leb_gt in E1. lia.
Qed.

(** The loop over hits that are all positions of the list. *)
Lemma rerank_loop_in_range (results : list rerank_hit) :
  forall ds acc,
    Forall (in_range (len ds)) results ->
    rerank_loop results ds acc
    = (apply_scores results ds,
       inr (acc ++ map (fun h => Z.to_nat (hit_index h)) results)).
Proof.
  induction results as [|h rs IH]; intros ds acc Hr.
  - cbn. rewrite app_nil_r. reflexivity.
  - inversion Hr as [|? ? Hh Hrs]; subst. cbn [rerank_loop].
    rewrite (resolve_index_in_range ds (hit_index h) Hh).
    rewrite IH.
    + cbn. rewrite <- app_assoc. reflexivity.
    + unfold len. rewrite set_rerank_score_length. exact Hrs.
Qed.

(** The loop up to a hit whose index is no position of the list. *)
Lemma rerank_loop_stops (good : list rerank_hit) (bad : rerank_hit)
    (rest : list rerank_hit) :
  forall ds acc,
    Forall (in_range (len ds)) good ->
    hit_index bad < - len ds \/ len ds <= hit_index bad ->
    rerank_loop (good ++ bad :: rest) ds acc
    = (apply_scores good ds, inl IndexError).
Proof.
  induction good as [|h rs IH]; intros ds acc Hr Hbad.
  - cbn [app rerank_loop].
    rewrite (resolve_index_out_of_range ds _ Hbad). reflexivity.
  - inversion Hr as [|? ? Hh Hrs]; subst. cbn [app rerank_loop].
    rewrite (resolve_index_in_range ds (hit_index h) Hh).
    rewrite IH; [reflexivity| |];
      unfold len; rewrite set_rerank_score_length; assumption.
Qed.

Lemma deref_cons (ds : list SourceDocument) (p : nat) (ps : list nat) :
  deref ds (p :: ps)
  = match nth_error ds p with Some d => [d] | None => [] end ++ deref ds ps.
Proof. reflexivity. Qed.

(** What the references collected by the loop denote at its end:
    [ds0] is the list before the loop, [ds] the list when [results] are
    still to come. *)
Lemma deref_apply_scores (results : list rerank_hit)
    (ds0 : list SourceDocument) :
  forall ds,
    List.length ds = List.length ds0 ->
    Forall (in_range (len ds0)) results ->
    NoDup (map hit_index results) ->
    (forall h, In h results ->
               nth_error ds (Z.to_nat (hit_index h))
               = nth_error ds0 (Z.to_nat (hit_index h))) ->
    Forall2 (fun h d =>
               exists d0,
                 nth_error ds0 (Z.to_nat (hit_index h)) = Some d0 /\
                 d = with_rerank_score d0 (hit_relevance_score h))
            results
            (deref (apply_scores results ds)
               (map (fun h => Z.to_nat (hit_index h)) results)).
Proof.
  induction results as [|h rs IH]; intros ds Hlen Hr Hnd Hsame;
    [constructor|].
  inversion Hr as [|? ? Hh Hrs]; subst.
  inversion Hnd as [|? ? Hnin Hnd']; subst.
  set (p := Z.to_nat (hit_index h)).
  set (ds' := set_rerank_score ds p (hit_relevance_score h)).
  assert (Hother : forall h', In h' rs -> Z.to_nat (hit_index h') <> p).
  { intros h' Hh' E. apply Hnin. apply in_map_iff. exists h'.
    split; [|exact Hh'].
    rewrite Forall_forall in Hrs. specialize (Hrs h' Hh').
    unfold in_range in Hh, Hrs. unfold p in E. lia. }
  assert (Hp : ~ In p (map (fun h0 => Z.to_nat (hit_index h0)) rs)).
  { intros Hin. apply in_map_iff in Hin. destruct Hin as (h' & E & Hh').
    exact (Hother h' Hh' E). }
  destruct (nth_error ds0 p) as [d0|] eqn:Ed0.
  2:{ apply nth_error_None in Ed0. unfold in_range, len in Hh.
      unfold p in Ed0. lia. }
  change (apply_scores (h :: rs) ds) with (apply_scores rs ds').
  change (map (fun h0 => Z.to_nat (hit_index h0)) (h :: rs))
    with (p :: map (fun h0 => Z.to_nat (hit_index h0)) rs).
  rewrite deref_cons, (apply_scores_untouched rs p ds' Hp).
  unfold ds' at 1. rewrite set_rerank_score_same.
  pose proof (Hsame h (or_introl eq_refl)) as Hh0. fold p in Hh0.
  rewrite Hh0, Ed0. cbn [option_map app].
  constructor; [exists d0; auto|].
  apply IH; try assumption.
  - unfold ds'. rewrite set_rerank_score_length. exact Hlen.
  - intros h' Hh'. unfold ds'.
    rewrite set_rerank_score_other by (intros E; apply (Hother h' Hh'); auto).
    apply Hsame. right. exact Hh'.
Qed.

Variable sv : services.

(** X14: when the reranker answers with hits whose indices are distinct
    positions of the candidate list, [retrieve_and_rerank] returns one
    document per hit, in the order of the hits: the candidate at the
    index of the hit, with the relevance score of the hit as its rerank
    score.  Nothing is logged, and the list is as long as the answer of
    the reranker. *)
Theorem rerank_success_order (query : str) (top_k rerank_top_k : Z)
    (w : world) (query_embedding : list float)
    (index_query : list float -> Z -> exn + list index_match)
    (hits : list index_match)
    (rerank : str -> list str -> Z -> exn + list rerank_hit)
    (results : list rerank_hit) :
  let documents := map to_source_document hits in
  let doc_texts := map doc_content documents in
  embed_content sv (embedding_clean_text query) (lit "retrieval_query")
    = inr query_embedding ->
  index sv = Some index_query ->
  index_query query_embedding top_k = inr hits ->
  1 < len hits ->
  cohere_client sv = Some rerank ->
  rerank query doc_texts rerank_top_k = inr results ->
  Forall (in_range (len hits)) results ->
  NoDup (map hit_index results) ->
  exists reranked,
    retrieve_and_rerank sv query top_k rerank_top_k w
    = (inr (mkRetrievalResult reranked
              (fsub (now sv (S (clock w))) (now sv (clock w)))
              (fsub (now sv (S (S (S (clock w)))))
                    (now sv (S (S (clock w)))))),
       mkWorld (S (S (S (S (clock w)))))
         (((trace w
            ++ [EvEmbed (embedding_clean_text query)
                  (lit "retrieval_query")])
           ++ [EvIndexQuery top_k])
          ++ [EvRerank query doc_texts rerank_top_k]))
    /\ Forall2 (fun h d =>
                  exists d0,
                    nth_error documents (Z.to_nat (hit_index h)) = Some d0 /\
                    d = with_rerank_score d0 (hit_relevance_score h))
               results reranked.
Proof.
  intros documents doc_texts He Hi Hq Hlen Hc Hr Hrange Hnd.
  assert (Hld : len documents = len hits)
    by (unfold documents, len; rewrite length_map; reflexivity).
  exists (deref (apply_scores results documents)
            (map (fun h => Z.to_nat (hit_index h)) results)).
  split.
  - unfold retrieve_and_rerank, generate_query_embedding, query_similar,
      bind, try_except, call, time_time, ret.
    cbn [clock trace]. rewrite He. rewrite Hi. cbn [clock trace].
    rewrite Hq.
    destruct hits as [|h0 hits']; [cbn in Hlen; lia|].
    cbn [truthy negb]. rewrite Hc.
    fold documents.
    assert (Hl : (1 <? len documents) = true)
      by (apply Z.ltb_lt; lia).
    rewrite Hl.
    unfold rerank_documents, bind, attempt, call, log_error, emit, ret.
    fold doc_texts. rewrite Hr.
    rewrite rerank_loop_in_range by (rewrite Hld; exact Hrange).
    reflexivity.
  - apply deref_apply_scores; auto. rewrite Hld. exact Hrange.
Qed.

(** X15: when a hit of the reranker has an index outside the candidate
    list, the [IndexError] is caught: [retrieve_and_rerank] logs it and
    returns [documents[:rerank_top_k]] in the order of the index.  The
    documents are the objects the loop has already written to, so the
    candidates named by the hits before the bad one carry their rerank
    scores. *)
Theorem rerank_bad_index_falls_back (query : str) (top_k rerank_top_k : Z)
    (w : world) (query_embedding : list float)
    (index_query : list float -> Z -> exn + list index_match)
    (hits : list index_match)
    (rerank : str -> list str -> Z -> exn + list rerank_hit)
    (good : list rerank_hit) (bad : rerank_hit) (rest : list rerank_hit) :
  let documents := map to_source_document hits in
  let doc_texts := map doc_content documents in
  embed_content sv (embedding_clean_text query) (lit "retrieval_query")
    = inr query_embedding ->
  index sv = Some index_query ->
  index_query query_embedding top_k = inr hits ->
  1 < len hits ->
  cohere_client sv = Some rerank ->
  rerank query doc_texts rerank_top_k = inr (good ++ bad :: rest) ->
  Forall (in_range (len hits)) good ->
  hit_index bad < - len hits \/ len hits <= hit_index bad ->
  retrieve_and_rerank sv query top_k rerank_top_k w
  = (inr (mkRetrievalResult
            (slice_to (apply_scores good documents) rerank_top_k)
            (fsub (now sv (S (clock w))) (now sv (clock w)))
            (fsub (now sv (S (S (S (clock w)))))
                  (now sv (S (S (clock w)))))),
     mkWorld (S (S (S (S (clock w)))))
       ((((trace w
           ++ [EvEmbed (embedding_clean_text query) (lit "retrieval_query")])
          ++ [EvIndexQuery top_k])
         ++ [EvRerank query doc_texts rerank_top_k])
        ++ [EvLogError])).
Proof.
  intros documents doc_texts He Hi Hq Hlen Hc Hr Hrange Hbad.
  assert (Hld : len documents = len hits)
    by (unfold documents, len; rewrite length_map; reflexivity).
  unfold retrieve_and_rerank, generate_query_embedding, query_similar,
    bind, try_except, call, time_time, ret.
  cbn [clock trace]. rewrite He. rewrite Hi. cbn [clock trace].
  rewrite Hq.
  destruct hits as [|h0 hits']; [cbn in Hlen; lia|].
  cbn [truthy negb]. rewrite Hc.
  fold documents.
  assert (Hl : (1 <? len documents) = true)
    by (apply Z.ltb_lt; lia).
  rewrite Hl.
  unfold rerank_documents, bind, attempt, call, log_error, emit, ret.
  fold doc_texts. rewrite Hr.
  rewrite rerank_loop_stops by (rewrite Hld; assumption).
  reflexivity.
Qed.

(** X16: without a reranker, or with a single candidate, the reranker is
    not called: the result is [documents[:rerank_top_k]] in the order of
    the index, no document has a rerank score, and the only calls made
    are the embedding and the index query. *)
Theorem no_rerank_takes_prefix (query : str) (top_k rerank_top_k : Z)
    (w : world) (query_embedding : list float)
    (index_query : list float -> Z -> exn + list index_match)
    (hits : list index_match) :
  let documents := map to_source_document hits in
  embed_content sv (embedding_clean_text query) (lit "retrieval_query")
    = inr query_embedding ->
  index sv = Some index_query ->
  index_query query_embedding top_k = inr hits ->
  hits <> [] ->
  cohere_client sv = None \/ len hits = 1 ->
  retrieve_and_rerank sv query top_k rerank_top_k w
  = (inr (mkRetrievalResult (slice_to documents rerank_top_k)
            (fsub (now sv (S (clock w))) (now sv (clock w)))
            (fsub (now sv (S (S (S (clock w)))))
                  (now sv (S (S (clock w)))))),
     mkWorld (S (S (S (S (clock w)))))
       ((trace w
         ++ [EvEmbed (embedding_clean_text query) (lit "retrieval_query")])
        ++ [EvIndexQuery top_k]))
  /\ Forall (fun d => doc_rerank_score d = None)
            (slice_to documents rerank_top_k).
Proof.
  intros documents He Hi Hq Hne Hcase.
  split; [|apply Forall_slice, to_source_document_unscored].
  unfold retrieve_and_rerank, generate_query_embedding, query_similar,
    bind, try_except, call, time_time, ret.
  cbn [clock trace]. rewrite He. rewrite Hi. cbn [clock trace].
  rewrite Hq.
  destruct hits as [|h0 hits']; [contradiction|].
  cbn [truthy negb]. fold documents.
  destruct Hcase as [Hnone|Hone].
  - rewrite Hnone. reflexivity.
  - assert (Hl : (1 <? len documents) = false).
    { apply Z.ltb_ge. unfold documents, len in *. rewrite length_map. lia. }
    rewrite Hl. destruct (cohere_client sv); reflexivity.
Qed.

(** X17: a failure of the embedding or of the index is not recovered:
    [retrieve_and_rerank] raises the very exception, after it was logged
    by the failing service and by the retrieval service; when the
    embedding fails the index is not queried, and without an index the
    call raises [ValueError]. *)
Theorem retrieval_failures_propagate (query : str) (top_k rerank_top_k : Z)
    (w : world) :
  let embedded :=
    trace w
    ++ [EvEmbed (embedding_clean_text query) (lit "retrieval_query")] in
  match embed_content sv (embedding_clean_text query)
          (lit "retrieval_query") with
  | inl e =>
      retrieve_and_rerank sv query top_k rerank_top_k w
      = (inl e,
         mkWorld (S (clock w)) ((embedded ++ [EvLogError]) ++ [EvLogError]))
  | inr query_embedding =>
      match index sv with
      | None =>
          retrieve_and_rerank sv query top_k rerank_top_k w
          = (inl (ValueError (lit "Vector store not initialized")),
             mkWorld (S (clock w))
               ((embedded ++ [EvLogError]) ++ [EvLogError]))
      | Some index_query =>
          match index_query query_embedding top_k with
          | inl e =>
              retrieve_and_rerank sv query top_k rerank_top_k w
              = (inl e,
                 mkWorld (S (clock w))
                   (((embedded ++ [EvIndexQuery top_k]) ++ [EvLogError])
                    ++ [EvLogError]))
          | inr _ => True
          end
      end
  end.
Proof.
  cbn zeta.
  unfold retrieve_and_rerank, generate_query_embedding, query_similar,
    bind, try_except, call, time_time, log_error, emit, ret, raise.
  cbn [clock trace].
  destruct (embed_content sv _ _) as [e|emb]; [reflexivity|].
  destruct (index sv) as [index_query|]; [|reflexivity].
  cbn [clock trace].
  destruct (index_query emb top_k) as [e|hits]; [reflexivity|exact I].
Qed.

(** X18: [query_documents] raises nothing but [HTTPException] with
    status 500: its detail is the exception that [retrieve_and_rerank]
    raised, and the failure is logged once more; the answer synthesizer is
    not entered. *)
Theorem query_documents_only_500 (request : QueryRequest) (w w' : world)
    (e : exn) :
  query_documents sv request w = (inl e, w') ->
  exists e0 w1,
    retrieve_and_rerank sv (req_query request) (req_top_k request)
      (req_rerank_top_k request) w = (inl e0, w1) /\
    e = HTTPException 500 e0 /\
    w' = mkWorld (clock w1) (trace w1 ++ [EvLogError]).
Proof.
  unfold query_documents, bind, try_except.
  destruct (retrieve_and_rerank sv (req_query request) (req_top_k request)
              (req_rerank_top_k request) w) as [[e0|r] w1] eqn:Hr.
  - unfold log_error, emit, raise. intros [= <- <-].
    exists e0, w1. auto.
  - destruct (truthy (rr_documents r)); cbn [negb].
    + destruct (generate_answer_returns sv (req_query request)
                  (rr_documents r) w1) as (llm & w2 & ->).
      discriminate.
    + discriminate.
Qed.

End WithFloat.

Lemma rerank_success_order_witness :
  (1 < len abc_hits /\ Forall (in_range (len abc_hits)) swap_results /\
   NoDup (map (hit_index (H := exact_float)) swap_results)) /\
  exists reranked,
    retrieve_and_rerank (reranking_services abc_hits swap_results) (lit "q")
      10 2 w0
    = (inr (@mkRetrievalResult exact_float reranked 1%Q 1%Q),
       mkWorld 4
         [EvEmbed (lit "q") (lit "retrieval_query"); EvIndexQuery 10;
          EvRerank (lit "q") [lit "text"; lit "text"; lit "text"] 2])
    /\ Forall2 (fun h d =>
                  exists d0,
                    nth_error abc_documents (Z.to_nat (hit_index h))
                    = Some d0 /\
                    d = with_rerank_score d0 (hit_relevance_score h))
               swap_results reranked.
Proof.
  assert (Hrange : Forall (in_range (len abc_hits)) swap_results)
    by (repeat constructor; cbn; lia).
  assert (Hnd : NoDup (map (hit_index (H := exact_float)) swap_results)).
  { cbn. constructor; [intros [E|[]]; discriminate E|].
    constructor; [intros []|constructor]. }
  split; [split; [reflexivity|split; assumption]|].
  apply (@rerank_success_order exact_float
           (reranking_services abc_hits swap_results) (lit "q") 10 2 w0
           [1 # 1; 0 # 1] (fun _ _ => inr abc_hits) abc_hits
           (fun _ _ _ => inr swap_results) swap_results);
    try reflexivity; assumption.
Defined.

Lemma rerank_bad_index_falls_back_witness :
  (1 < len abc_hits /\ Forall (in_range (len abc_hits)) good_results /\
   (hit_index bad_result < - len abc_hits
    \/ len abc_hits <= hit_index bad_result)) /\
  retrieve_and_rerank
    (reranking_services abc_hits (good_results ++ [bad_result])) (lit "q")
    10 2 w0
  = (inr (@mkRetrievalResult exact_float
            (slice_to (apply_scores good_results abc_documents) 2)
            1%Q 1%Q),
     mkWorld 4
       [EvEmbed (lit "q") (lit "retrieval_query"); EvIndexQuery 10;
        EvRerank (lit "q") [lit "text"; lit "text"; lit "text"] 2;
        EvLogError]).
Proof.
  assert (Hrange : Forall (in_range (len abc_hits)) good_results)
    by (repeat constructor; cbn; lia).
  assert (Hbad : hit_index bad_result < - len abc_hits
                 \/ len abc_hits <= hit_index bad_result)
    by (right; cbn; lia).
  split; [split; [reflexivity|split; assumption]|].
  apply (@rerank_bad_index_falls_back exact_float
           (reranking_services abc_hits (good_results ++ [bad_result]))
           (lit "q") 10 2 w0
           [1 # 1; 0 # 1] (fun _ _ => inr abc_hits) abc_hits
           (fun _ _ _ => inr (good_results ++ [bad_result]))
           good_results bad_result []);
    try reflexivity; assumption.
Defined.

Lemma no_rerank_takes_prefix_witness :
  ([hit "a"] <> [] /\ len [hit "a"] = 1) /\
  retrieve_and_rerank (sample_services [hit "a"] true) (lit "q") 10 5 w0
  = (inr (@mkRetrievalResult exact_float
            (map (to_source_document (H := exact_float)) [hit "a"])
            1%Q 1%Q),
     mkWorld 4 [EvEmbed (lit "q") (lit "retrieval_query"); EvIndexQuery 10]).
Proof.
  split; [split; [discriminate|reflexivity]|].
  apply (@no_rerank_takes_prefix exact_float
           (sample_services [hit "a"] true) (lit "q") 10 5 w0
           [1 # 1; 0 # 1] (fun _ _ => inr [hit "a"]) [hit "a"]);
    try reflexivity; [discriminate|right; reflexivity].
Defined.

Lemma query_documents_only_500_witness :
  query_documents failing_embedding (mkQueryRequest (lit "q") 10 5) w0
  = (inl (HTTPException 500 (ServiceError 429)),
     mkWorld 1
       [EvEmbed (lit "q") (lit "retrieval_query"); EvLogError; EvLogError;
        EvLogError])
  /\ exists e0 w1,
       retrieve_and_rerank failing_embedding (lit "q") 10 5 w0 = (inl e0, w1)
       /\ HTTPException 500 (ServiceError 429) = HTTPException 500 e0
       /\ mkWorld 1
            [EvEmbed (lit "q") (lit "retrieval_query"); EvLogError;
             EvLogError; EvLogError]
          = mkWorld (clock w1) (trace w1 ++ [EvLogError]).
Proof.
  split; [reflexivity|].
  apply (@query_documents_only_500 exact_float failing_embedding
           (mkQueryRequest (lit "q") 10 5) w0).
  reflexivity.
Defined.

End RetrievalMore.

(** ** The ingest path *)

Module IngestFacts.
Import Py Eff Chunking Schemas Exact Spec SpecMore Traced Ingest IngestSamples.
Import PyFacts ChunkingFacts ChunkingMore.

Lemma str_eqb_refl (s : str) : str_eqb s s = true.
Proof.
  induction s as [|c s IH]; [reflexivity|].
  cbn. rewrite Ascii.eqb_refl. exact IH.
Qed.

Lemma str_eqb_eq (a b : str) : str_eqb a b = true <-> a = b.
Proof.
  split; [|intros ->; apply str_eqb_refl].
  revert b. induction a as [|c a IH]; intros [|d b]; cbn; try discriminate;
    [reflexivity|].
  intros E. apply andb_true_iff in E. destruct E as [E1 E2].
  apply Ascii.eqb_eq in E1. subst d. f_equal. apply IH, E2.
Qed.

(** *** The metadata sent with a vector *)

Lemma dict_get_set_same (d : dict) (k : str) (v : value) :
  dict_get (dict_set d k v) k = Some v.
Proof.
  induction d as [|[k' v'] d IH]; cbn.
  - rewrite str_eqb_refl. reflexivity.
  - destruct (str_eqb k k') eqn:E; cbn; rewrite E; [reflexivity|exact IH].
Qed.

Lemma dict_get_set_other (d : dict) (k k' : str) (v : value) :
  k' <> k -> dict_get (dict_set d k v) k' = dict_get d k'.
Proof.
  intros Hne. induction d as [|[k0 v0] d IH]; cbn.
  - destruct (str_eqb k' k) eqn:E; [|reflexivity].
    apply str_eqb_eq in E. contradiction.
  - destruct (str_eqb k k0) eqn:E; cbn.
    + apply str_eqb_eq in E. subst k0.
      destruct (str_eqb k' k) eqn:E'; [|reflexivity].
      apply str_eqb_eq in E'. contradiction.
    + destruct (str_eqb k' k0); [reflexivity|exact IH].
Qed.

Lemma lstrip_blank (s : str) : blank s -> lstrip s = [].
Proof.
  induction 1 as [|c s Hc _ IH]; [reflexivity|]. cbn. rewrite Hc. exact IH.
Qed.

Lemma strip_blank (s : str) : blank s -> strip s = [].
Proof. intros Hb. unfold strip. rewrite (lstrip_blank s Hb). reflexivity. Qed.

Section WithFloat.
Context `{PyFloat}.
Variable sv : ingest_services.

(** X19: [upsert_document] sends the vector with the metadata of the
    chunk extended by its content: in the metadata sent, the key
    [content] holds the content (replacing an older value under that
    key), and every other key holds what it held before.  Without an
    index nothing is sent and [ValueError] is raised; a failure of the
    index is logged and raised again. *)
Theorem upsert_document_metadata (doc_id : str) (embedding : list float)
    (metadata : dict) (content : str) (tr : list event) :
  let full_metadata := dict_set metadata (lit "content") (VStr content) in
  dict_get full_metadata (lit "content") = Some (VStr content) /\
  (forall k, k <> lit "content" ->
             dict_get full_metadata k = dict_get metadata k) /\
  match index_upsert sv with
  | None =>
      upsert_document sv doc_id embedding metadata content tr
      = (inl (ValueError (lit "Vector store not initialized")),
         tr ++ [IvLogError])
  | Some upsert =>
      match upsert doc_id embedding full_metadata with
      | inr _ =>
          upsert_document sv doc_id embedding metadata content tr
          = (inr tt, tr ++ [IvUpsert doc_id embedding full_metadata])
      | inl e =>
          upsert_document sv doc_id embedding metadata content tr
          = (inl e,
             (tr ++ [IvUpsert doc_id embedding full_metadata])
             ++ [IvLogError])
      end
  end.
Proof.
  cbn zeta. split; [apply dict_get_set_same|].
  split; [intros k Hk; apply dict_get_set_other, Hk|].
  unfold upsert_document, ttry, tbind, tcall, traise, log_error, temit.
  destruct (index_upsert sv) as [upsert|]; [|reflexivity].
  destruct (upsert _ _ _) as [e|[]]; reflexivity.
Qed.

(** *** Embedding *)


Local Abbreviation embed_event :=
  (fun t : str =>
     IvEmbed (Stores.embedding_clean_text t) (lit "retrieval_document")).

Local Abbreviation embeds_to :=
  (fun (t : str) (v : list float) =>
     ing_embed_content sv (Stores.embedding_clean_text t)
       (lit "retrieval_document") = inr v).




(** *** Storing chunks *)







(** *** Upload *)

Lemma upload_text_unfold (fuel : nat) (file : option UploadFile)
    (c0 : ascii) (t : str) (title : str) (tr : list event) :
  upload_document sv fuel file (Some (c0 :: t)) title tr
  = match chunk_text fuel (uuid4_hex sv) (c0 :: t) (lit "text_input") title
            (lit "main") with
    | OutOfFuel => None
    | Raised => Some (http_or_500 (inl IndexError, tr))
    | Returned chunks =>
        Some (http_or_500
          ((stored_count <- store_chunks sv chunks ;;
            tret (mkUploadResponse
                    (lit "Successfully processed and stored "
                     ++ str_of_int stored_count ++ lit " chunks")
                    stored_count (lit "text_input")))%traced tr))
    end.
Proof. reflexivity. Qed.


(** X24: an upload of a text that is not empty but blank succeeds: it
    stores nothing, makes no call, and answers with zero chunks. *)
Theorem upload_blank_text (fuel : nat) (file : option UploadFile)
    (t : str) (title : str) (tr : list event) :
  t <> [] -> blank t ->
  upload_document sv fuel file (Some t) title tr
  = Some (inr (mkUploadResponse
                 (lit "Successfully processed and stored 0 chunks") 0
                 (lit "text_input")),
          tr).
Proof.
  intros Hne Hb.
  destruct (no_chunks_iff_blank fuel (uuid4_hex sv) t (lit "text_input")
              title (lit "main")) as [Hnil _].
  destruct t as [|c0 t']; [contradiction|].
  rewrite upload_text_unfold, (Hnil Hb). reflexivity.
Qed.

(** X25: whatever [upload_document] raises is an [HTTPException]. *)
Theorem upload_errors_are_http (fuel : nat) (file : option UploadFile)
    (text : option str) (title : str) (tr tr' : list event) (e : exn) :
  upload_document sv fuel file text title tr = Some (inl e, tr') ->
  exists status detail, e = HTTPException status detail.
Proof.
  unfold upload_document.
  destruct (extract_text sv file text tr) as [[e0|[tc src]] tr0].
  - destruct e0; intros [= <- <-]; eauto.
  - destruct (chunk_text _ _ _ _ _ _) as [chunks| |]; [| |discriminate].
    + destruct ((stored_count <- store_chunks sv chunks ;; _)%traced tr0)
        as [[e0|r] tr1]; [|discriminate].
      destruct e0; intros [= <- <-]; eauto.
    + cbn. intros [= <- <-]; eauto.
Qed.

(** X26: without a text (none, or the empty one) the upload needs a file:
    without a file it is rejected with status 400, and a file larger than
    the limit is rejected with status 413 before it is looked at;
    nothing is logged and no service is called. *)
Theorem upload_rejections (fuel : nat) (file : option UploadFile)
    (text : option str) (title : str) (tr : list event) :
  text = None \/ text = Some [] ->
  match file with
  | None =>
      upload_document sv fuel file text title tr
      = Some (inl (http_error 400 "Either file or text must be provided"),
              tr)
  | Some f =>
      max_file_size_mb sv * 1024 * 1024 < size f ->
      upload_document sv fuel file text title tr
      = Some (inl (http_error 413 "File size exceeds maximum allowed size"),
              tr)
  end.
Proof.
  intros Ht. unfold upload_document, extract_text.
  destruct file as [f|].
  - intros Hsz. apply Z.ltb_lt in Hsz.
    destruct Ht as [-> | ->]; rewrite Hsz; reflexivity.
  - destruct Ht as [-> | ->]; reflexivity.
Qed.

(** *** Reading files *)

(** X27: [_extract_text_file] never raises: bytes that are not UTF-8 are
    read as Latin-1, which maps every byte to a character, so the other
    encodings are never tried and the error after the loop is never
    raised. *)
Theorem extract_text_file_total (content : bytes) (tr : list event) :
  extract_text_file sv content tr
  = (inr match utf8_decode sv content with
         | Some text_content => text_content
         | None => content
         end,
     tr).
Proof.
  unfold extract_text_file. destruct (utf8_decode sv content); reflexivity.
Qed.

(** X28: [_extract_pdf_text] returns the text of the pages only when it
    is not blank; every failure, also the rejection of a blank PDF raised
    inside the [try], reaches the caller as the same [HTTPException] 400
    "Unable to process PDF file", after a log line. *)
Theorem extract_pdf_text_outcomes (content : bytes) (tr : list event) :
  match extract_pdf_text sv content tr with
  | (inr text_content, tr') =>
      tr' = tr /\ ~ blank text_content /\
      exists pages,
        pdf_pages sv content = inr pages /\
        text_content = List.concat pages
  | (inl e, tr') =>
      e = http_error 400
            "Unable to process PDF file. Please ensure it contains extractable text."
      /\ tr' = tr ++ [IvLogError]
      /\ (pdf_pages sv content = inr [] \/
          (exists e0, pdf_pages sv content = inl e0) \/
          exists pages, pdf_pages sv content = inr pages /\
                        strip (List.concat pages) = [])
  end.
Proof.
  unfold extract_pdf_text, ttry, tbind, traise, tret, log_error, temit.
  destruct (pdf_pages sv content) as [e0|pages] eqn:Hp.
  - cbn. repeat split. right. left. eauto.
  - destruct (strip (List.concat pages)) as [|c s] eqn:Hs; cbn [truthy negb].
    + cbn. repeat split. right. right. eauto.
    + split; [reflexivity|]. split; [|eauto].
      intros Hb. apply strip_blank in Hb. rewrite Hb in Hs. discriminate.
Qed.

End WithFloat.





Lemma upload_blank_text_witness :
  (lit "   " <> [] /\ blank (lit "   ")) /\
  upload_document (sample_ingest [] [] true) 0 None (Some (lit "   "))
    (lit "Title") []
  = Some (inr (mkUploadResponse
                 (lit "Successfully processed and stored 0 chunks") 0
                 (lit "text_input")),
          []).
Proof.
  assert (Hne : lit "   " <> []) by discriminate.
  assert (Hb : blank (lit "   ")) by (repeat constructor).
  split; [auto|].
  exact (@upload_blank_text exact_float (sample_ingest [] [] true) 0 None
           (lit "   ") (lit "Title") [] Hne Hb).
Defined.

Lemma upload_errors_are_http_witness :
  upload_document (sample_ingest [lit "notes.txt_0_01234567"] [] false) 1
    (Some plain_file) None (lit "Title") []
  = Some (inl (HTTPException 500 (ServiceError 503)),
          [@IvEmbed exact_float (lit "plain notes") (lit "retrieval_document");
           @IvUpsert exact_float (lit "notes.txt_0_01234567") [1 # 1; 0 # 1]
             [ (lit "source", VStr (lit "notes.txt"));
               (lit "title", VStr (lit "Title"));
               (lit "section", VStr (lit "main"));
               (lit "position", VInt 0);
               (lit "content", VStr (lit "plain notes")) ];
           @IvLogError exact_float; @IvLogError exact_float])
  /\ exists status detail,
       HTTPException 500 (ServiceError 503) = HTTPException status detail.
Proof.
  assert (Hu : upload_document
                 (sample_ingest [lit "notes.txt_0_01234567"] [] false) 1
                 (Some plain_file) None (lit "Title") []
               = Some (inl (HTTPException 500 (ServiceError 503)),
                       [@IvEmbed exact_float (lit "plain notes") (lit "retrieval_document");
                        @IvUpsert exact_float (lit "notes.txt_0_01234567") [1 # 1; 0 # 1]
                          [ (lit "source", VStr (lit "notes.txt"));
                            (lit "title", VStr (lit "Title"));
                            (lit "section", VStr (lit "main"));
                            (lit "position", VInt 0);
                            (lit "content", VStr (lit "plain notes")) ];
                        @IvLogError exact_float; @IvLogError exact_float])) by reflexivity.
  split; [exact Hu|].
  exact (@upload_errors_are_http exact_float _ _ _ _ _ _ _ _ Hu).
Defined.

Lemma upload_rejections_witness :
  (@None str = None \/ @None str = Some []) /\
  upload_document (sample_ingest [] [] true) 0 None None (lit "Title") []
  = Some (inl (http_error 400 "Either file or text must be provided"), []).
Proof.
  split; [left; reflexivity|].
  exact (@upload_rejections exact_float (sample_ingest [] [] true) 0 None
           None (lit "Title") [] (or_introl eq_refl)).
Defined.

End IngestFacts.
